(** * build.go of meyermarcel/peg: the staged build script, embedded in Rocq

    The script is a sequential Go program whose behaviour is all effects:
    it stats files, changes the working directory, starts child processes
    and panics on every failure.  The embedding keeps that shape:

    - the operating system is a small explicit model (a file tree keyed by
      canonical paths, a working directory, a clock);
    - child processes are an oracle, a variable of the section that holds
      the program: nothing is assumed about what [go build] or a generated
      parser does to the file tree;
    - the program runs in a state-and-panic monad [M]; [defer] runs its
      call on normal return and while panicking, as Go does. *)

From Stdlib Require Import ZArith String Ascii List Bool Lia.
From stdpp Require Import base option list gmap strings sorting fin_maps.

Local Open Scope Z_scope.
Local Open Scope string_scope.
Local Open Scope list_scope.
Local Open Scope stdpp_scope.

(** ** Strings *)

Definition nl : string := String (ascii_of_nat 10) EmptyString.

(** [strings.HasSuffix]: [len(s) >= len(suffix) && s[len(s)-len(suffix):] == suffix]. *)
Definition HasSuffix (s suffix : string) : bool :=
  (String.length suffix <=? String.length s)%nat
  && String.eqb
       (String.substring (String.length s - String.length suffix)
                         (String.length suffix) s)
       suffix.

(** [strings.TrimSuffix]. *)
Definition TrimSuffix (s suffix : string) : string :=
  if HasSuffix s suffix
  then String.substring 0 (String.length s - String.length suffix) s
  else s.

(** Splitting at a one-byte separator ([strings.Split] with such a
    separator, and the kernel's reading of a path). [cur] is the piece
    being read. *)
Fixpoint split_on (sep : ascii) (cur : string) (s : string) : list string :=
  match s with
  | EmptyString => [cur]
  | String c r =>
      if Ascii.eqb c sep then cur :: split_on sep EmptyString r
      else split_on sep (cur +:+ String c EmptyString) r
  end.

Definition Split (s : string) (sep : ascii) : list string :=
  split_on sep EmptyString s.

(** ** Paths

    The model is of a Unix host: the separator is a slash, so
    [filepath.FromSlash] returns its argument.  The definition keeps the
    library's test so that it reads as the library does. *)

Definition Separator : ascii := "/"%char.

Fixpoint replace_byte (old new : ascii) (s : string) : string :=
  match s with
  | EmptyString => EmptyString
  | String c r =>
      String (if Ascii.eqb c old then new else c) (replace_byte old new r)
  end.

Definition FromSlash (path : string) : string :=
  if Ascii.eqb Separator "/" then path
  else replace_byte "/" Separator path.

(** A canonical path: the names from the root down. *)
Definition Path : Type := list string.

Definition is_abs (p : string) : bool :=
  match p with
  | String c _ => Ascii.eqb c "/"
  | EmptyString => false
  end.

(** Following the components of a path name from a directory. *)
Fixpoint walk (at_ : Path) (comps : list string) : Path :=
  match comps with
  | [] => at_
  | c :: r =>
      if String.eqb c "" then walk at_ r
      else if String.eqb c "." then walk at_ r
      else if String.eqb c ".." then walk (removelast at_) r
      else walk (at_ ++ [c]) r
  end.

Definition resolve (cwd : Path) (name : string) : Path :=
  walk (if is_abs name then [] else cwd) (Split name "/").

(** The name [os.Getwd] reports for a directory. *)
Definition render (p : Path) : string :=
  "/" +:+ String.concat "/" p.

Fixpoint strip_prefix (d k : Path) : option Path :=
  match d, k with
  | [], _ => Some k
  | x :: d', y :: k' => if String.eqb x y then strip_prefix d' k' else None
  | _ :: _, [] => None
  end.

(** [child_of d k] is the entry name of [k] when [k] lies directly in [d]. *)
Definition child_of (d k : Path) : option string :=
  match strip_prefix d k with
  | Some [n] => Some n
  | _ => None
  end.

(** ** The file tree *)

Inductive Node : Type :=
| File (mtime : Z) (data : string)
| Dir (mtime : Z).

Record FileInfo : Type := mkInfo {
  Name : string;
  ModTime : Z;
  IsDir : bool
}.

(** [time.Time.After]. *)
Definition After (t u : Z) : bool := (u <? t)%Z.

Definition info_of (name : string) (n : Node) : FileInfo :=
  match n with
  | File t _ => mkInfo name t false
  | Dir t => mkInfo name t true
  end.

Definition lookup_node (fs : gmap Path Node) (p : Path) : option Node :=
  match p with
  | [] => Some (Dir 0)
  | _ => fs !! p
  end.

Definition entries (fs : gmap Path Node) (d : Path) : list FileInfo :=
  omap (fun kn : Path * Node =>
          match child_of d kn.1 with
          | Some n => Some (info_of n kn.2)
          | None => None
          end)
       (map_to_list fs).

Definition name_le (a b : FileInfo) : Prop :=
  String.leb (Name a) (Name b) = true.

#[global] Instance name_le_dec a b : Decision (name_le a b).
Proof. unfold name_le. apply _. Defined.

(** ** Errors, child processes, the state of a run *)

Inductive Err : Type :=
| PathError (op path : string)
| SyscallError (op : string)
| ExecError (name : string)
| ExitError (code : Z)
| PipeError.

Record Invocation : Type := mkInv {
  i_dir : Path;
  i_name : string;
  i_args : list string;
  i_stdin : option string
}.

(** What a child process leaves behind: a file tree and a clock of its
    choosing, its standard output, its combined output and its error. *)
Record Outcome : Type := mkOutcome {
  o_fs : gmap Path Node;
  o_now : Z;
  o_stdout : string;
  o_combined : string;
  o_err : option Err
}.

(** The world outside the program.  [run_child n fs now inv] is the [n]-th
    child of the run; [stdin_pipe n] is the error, if any, of
    [cmd.StdinPipe] before it; [write_err n] is the error, if any, of
    writing to an open file after [n] children; [error_text] is
    [err.Error()] and [clock_text] is
    [time.Time.UTC().Format(time.RFC3339[0:19])]. *)
Record Children : Type := mkChildren {
  run_child : nat -> gmap Path Node -> Z -> Invocation -> Outcome;
  stdin_pipe : nat -> option Err;
  write_err : nat -> option Err;
  error_text : Err -> string;
  clock_text : Z -> string
}.

Record State : Type := mkState {
  cwd : Path;
  fs : gmap Path Node;
  now : Z;
  processed : gmap string bool;
  stdout : list string;
  log_prefix : string;
  logged : list string;
  spawned : list (Invocation * option Err)
}.

Definition set_cwd (d : Path) (s : State) : State :=
  mkState d (fs s) (now s) (processed s) (stdout s) (log_prefix s) (logged s)
          (spawned s).
Definition set_fs (f : gmap Path Node) (s : State) : State :=
  mkState (cwd s) f (now s) (processed s) (stdout s) (log_prefix s) (logged s)
          (spawned s).
Definition set_processed (p : gmap string bool) (s : State) : State :=
  mkState (cwd s) (fs s) (now s) p (stdout s) (log_prefix s) (logged s)
          (spawned s).
Definition add_stdout (x : string) (s : State) : State :=
  mkState (cwd s) (fs s) (now s) (processed s) (stdout s ++ [x])
          (log_prefix s) (logged s) (spawned s).
Definition set_log_prefix (x : string) (s : State) : State :=
  mkState (cwd s) (fs s) (now s) (processed s) (stdout s) x (logged s)
          (spawned s).
Definition add_logged (x : string) (s : State) : State :=
  mkState (cwd s) (fs s) (now s) (processed s) (stdout s) (log_prefix s)
          (logged s ++ [x]) (spawned s).
Definition after_child (inv : Invocation) (o : Outcome) (s : State) : State :=
  mkState (cwd s) (o_fs o) (o_now o) (processed s) (stdout s) (log_prefix s)
          (logged s) (spawned s ++ [(inv, o_err o)]).

(** ** The system calls the script uses *)

Definition os_Stat (s : State) (name : string) : option FileInfo :=
  if String.eqb name "" then None
  else
    let p := resolve (cwd s) name in
    match lookup_node (fs s) p with
    | Some n => Some (info_of (List.last p "/") n)
    | None => None
    end.

Definition os_Getwd (s : State) : option string :=
  match lookup_node (fs s) (cwd s) with
  | Some (Dir _) => Some (render (cwd s))
  | _ => None
  end.

Definition os_Chdir (s : State) (dir : string) : option State :=
  if String.eqb dir "" then None
  else
    let p := resolve (cwd s) dir in
    match lookup_node (fs s) p with
    | Some (Dir _) => Some (set_cwd p s)
    | _ => None
    end.

Definition os_ReadFile (s : State) (name : string) : option string :=
  if String.eqb name "" then None
  else
    match lookup_node (fs s) (resolve (cwd s) name) with
    | Some (File _ d) => Some d
    | _ => None
    end.

(** Creating or truncating a file: the directory it lies in must exist and
    the name must not be a directory. *)
Definition os_WriteFile (s : State) (name data : string) : option State :=
  if String.eqb name "" then None
  else
    let p := resolve (cwd s) name in
    match p, lookup_node (fs s) (removelast p), lookup_node (fs s) p with
    | _ :: _, Some (Dir _), Some (File _ _)
    | _ :: _, Some (Dir _), None =>
        Some (set_fs (<[p := File (now s) data]> (fs s)) s)
    | _, _, _ => None
    end.

(** [os.Create]: the file is created or truncated; the handle is the
    path it was opened at. *)
Definition os_Create (s : State) (name : string) : option (Path * State) :=
  match os_WriteFile s name "" with
  | Some s' => Some (resolve (cwd s) name, s')
  | None => None
  end.

(** A write to an open file shows in the tree where the file still is. *)
Definition write_handle (p : Path) (data : string) (s : State) : State :=
  match lookup_node (fs s) p with
  | Some (File _ _) => set_fs (<[p := File (now s) data]> (fs s)) s
  | _ => s
  end.

(** [os.Remove]: a file, or a directory that is empty. *)
Definition os_Remove (s : State) (name : string) : option State :=
  if String.eqb name "" then None
  else
    let p := resolve (cwd s) name in
    match p, lookup_node (fs s) p with
    | _ :: _, Some (File _ _) => Some (set_fs (delete p (fs s)) s)
    | _ :: _, Some (Dir _) =>
        match entries (fs s) p with
        | [] => Some (set_fs (delete p (fs s)) s)
        | _ :: _ => None
        end
    | _, _ => None
    end.

(** [ioutil.ReadDir]: the entries of a directory, sorted by name. *)
Definition ioutil_ReadDir (s : State) (dirname : string)
  : option (list FileInfo) :=
  if String.eqb dirname "" then None
  else
    let p := resolve (cwd s) dirname in
    match lookup_node (fs s) p with
    | Some (Dir _) => Some (merge_sort name_le (entries (fs s) p))
    | _ => None
    end.

(** ** The monad: state, and panics that unwind through [defer] *)

Inductive Result (A : Type) : Type :=
| Ok (a : A) (s : State)
| Panic (e : Err) (s : State).
Arguments Ok {A} a s.
Arguments Panic {A} e s.

Definition M (A : Type) : Type := State -> Result A.

Definition ret {A : Type} (a : A) : M A := fun s => Ok a s.

#[global] Instance M_ret : MRet M := fun A => @ret A.
Definition bind {A B : Type} (m : M A) (f : A -> M B) : M B := fun s =>
  match m s with
  | Ok a s' => f a s'
  | Panic e s' => Panic e s'
  end.

#[global] Instance M_bind : MBind M := fun A B f m => bind m f.

Notation "'let*' x ':=' m 'in' k" := (bind m (fun x => k))
  (at level 10, x name, m at level 100, k at level 200, only parsing).
Notation "m ';;' k" := (bind m (fun _ => k))
  (at level 100, k at level 200, right associativity, only parsing).

Definition panic {A : Type} (e : Err) : M A := fun s => Panic e s.

(** [defer d; body]: [d] runs when [body] returns and when it panics; a
    panic of [d] replaces the one in flight; the value of [d] is dropped. *)
Definition defer {A B : Type} (d : M B) (body : M A) : M A := fun s =>
  match body s with
  | Ok a s1 =>
      match d s1 with
      | Ok _ s2 => Ok a s2
      | Panic e s2 => Panic e s2
      end
  | Panic e s1 =>
      match d s1 with
      | Ok _ s2 => Panic e s2
      | Panic e' s2 => Panic e' s2
      end
  end.

Definition final_state {A : Type} (r : Result A) : State :=
  match r with
  | Ok _ s => s
  | Panic _ s => s
  end.

Definition gets {A : Type} (f : State -> A) : M A := fun s => Ok (f s) s.
Definition modify (f : State -> State) : M unit := fun s => Ok tt (f s).

Definition Print (x : string) : M unit := modify (add_stdout x).

(** [fmt.Println] of one string. *)
Definition Println (x : string) : M unit := Print (x +:+ nl).

(** [log.Println]: the operands with spaces between them, after the
    prefix; the time stamp of the line is left out. *)
Definition log_Println (operands : list string) : M unit :=
  modify (fun s =>
            add_logged (log_prefix s +:+ String.concat " " operands +:+ nl) s).

Definition log_SetPrefix (x : string) : M unit := modify (set_log_prefix x).

(** A call that returns [(value, err)], followed by [if err != nil { panic(err) }]. *)
Definition must {A : Type} (call : State -> option A) (e : Err) : M A :=
  fun s => match call s with
           | Some a => Ok a s
           | None => Panic e s
           end.

Definition must_set (call : State -> option State) (e : Err) : M unit :=
  fun s => match call s with
           | Some s' => Ok tt s'
           | None => Panic e s
           end.

Fixpoint for_each {A : Type} (body : A -> M unit) (l : list A) : M unit :=
  match l with
  | [] => ret tt
  | x :: r => body x ;; for_each body r
  end.

(** ** The program *)

(** The quotation mark. *)
Definition dq : string := String (ascii_of_nat 34) EmptyString.

(** [type info struct] of [buildinfo]. *)
Record info : Type := mkBuildInfo {
  Version : string;
  Buildtime : string;
  Commit : string;
  IsTagged : bool
}.

(** The template of [buildinfo], executed on [inf]. *)
Definition templ (inf : info) : string :=
  "// Code Generated by " +:+ dq +:+ "build.go buildinfo" +:+ dq
  +:+ "  DO NOT EDIT." +:+ nl
  +:+ "package main" +:+ nl +:+ nl
  +:+ "const (VERSION=" +:+ dq +:+ Version inf +:+ dq
  +:+ ";BUILDTIME=" +:+ dq +:+ Buildtime inf +:+ dq
  +:+ ";COMMIT=" +:+ dq +:+ Commit inf +:+ dq
  +:+ ";IS_TAGGED=" +:+ (if IsTagged inf then "true" else "false") +:+ ")".

(** A value of the variadic [deps ...interface{}] of [done] whose dynamic
    type is neither [string] nor [func() bool]. *)
Inductive Other : Type :=
| ONil
| OInt (n : Z)
| OBool (b : bool)
| OProc (g : M unit).

(** A dependency as [done] receives it.  A [func() bool] comes with the
    name [runtime.FuncForPC] reports for it. *)
Inductive Dep : Type :=
| DString (s : string)
| DFunc (name : string) (f : M bool)
| DOther (v : Other).

Section Build.

Variable ch : Children.

(** [cmd.Output] and [cmd.CombinedOutput]: the child runs to its end. *)
Definition run (name : string) (arg : list string) (input : option string)
  : M Outcome := fun s =>
  let inv := mkInv (cwd s) name arg input in
  let o := run_child ch (List.length (spawned s)) (fs s) (now s) inv in
  Ok o (after_child inv o s).

(** One turn of the loop of [done]: the type switch on [dep]. *)
Definition done_dep (info : option FileInfo) (fini : bool) (dep : Dep)
  : M bool :=
  match dep with
  | DString dep =>
      match info with
      | None => ret false
      | Some info =>
          let dep := FromSlash dep in
          let* fileInfo := must (fun s => os_Stat s dep) (PathError "stat" dep) in
          if After (ModTime fileInfo) (ModTime info) then ret false
          else ret fini
      end
  | DFunc name dep =>
      let* cached := gets (fun s => processed s !! name) in
      match cached with
      | Some result =>
          Print (name +:+ " is done" +:+ nl);;
          ret (fini && result)
      | None =>
          let* result := dep in
          Print (name +:+ nl);;
          modify (fun s => set_processed (<[name := result]> (processed s)) s);;
          ret (fini && result)
      end
  | DOther _ => ret fini
  end.

Fixpoint done_loop (info : option FileInfo) (fini : bool) (deps : list Dep)
  : M bool :=
  match deps with
  | [] => ret fini
  | dep :: rest =>
      let* fini' := done_dep info fini dep in
      done_loop info fini' rest
  end.

Definition done (file : string) (deps : list Dep) : M bool :=
  let file := FromSlash file in
  let* info := gets (fun s => os_Stat s file) in
  let fini := match info with Some _ => true | None => false end in
  done_loop info fini deps.

Definition chdir (dir : string) : M string :=
  let dir := FromSlash dir in
  let* working := must os_Getwd (SyscallError "getwd") in
  must_set (fun s => os_Chdir s dir) (PathError "chdir" dir);;
  Print ("cd " +:+ dir +:+ nl);;
  ret working.

Definition command (name inputFile outputFile : string) (arg : list string)
  : M unit :=
  let name := FromSlash name in
  let inputFile := FromSlash inputFile in
  let outputFile := FromSlash outputFile in
  Print name;;
  for_each (fun a => Print (" " +:+ a)) arg;;
  let* input :=
    (if negb (String.eqb inputFile "") then
       Print (" < " +:+ inputFile);;
       let* input := must (fun s => os_ReadFile s inputFile)
                          (PathError "open" inputFile) in
       let* perr := gets (fun s => stdin_pipe ch (List.length (spawned s))) in
       match perr with
       | Some e => panic e
       | None => ret (Some input)
       end
     else ret None) in
  if negb (String.eqb outputFile "") then
    Print (" > " +:+ outputFile +:+ nl);;
    let* o := run name arg input in
    match o_err o with
    | Some e => panic e
    | None =>
        must_set (fun s => os_WriteFile s outputFile (o_stdout o))
                 (PathError "open" outputFile)
    end
  else
    let* o := run name arg input in
    Print (nl +:+ o_combined o);;
    match o_err o with
    | Some e => panic e
    | None => ret tt
    end.

(** [delete] of build.go; the error of [os.Remove] is dropped. *)
Definition delete_ (file : string) : M unit :=
  let file := FromSlash file in
  Print ("rm -f " +:+ file +:+ nl);;
  modify (fun s => match os_Remove s file with
                   | Some s' => s'
                   | None => s
                   end).

Definition deleteFilesWithSuffix (suffix : string) : M unit :=
  let* files := must (fun s => ioutil_ReadDir s ".") (PathError "open" ".") in
  for_each (fun file =>
              if HasSuffix (Name file) suffix then delete_ (Name file)
              else ret tt)
           files.

Definition bootstrap : M bool :=
  let* b := done "bootstrap/bootstrap"
         [DString "bootstrap/main.go"; DString "tree/peg.go"] in
  if b then ret true else
  let* wd := chdir "bootstrap" in
  defer (chdir wd) (
    command "go" "" "" ["build"];;
    ret false).

Definition peg0 : M bool :=
  let* b := done "cmd/peg-bootstrap/peg0"
         [DString "cmd/peg-bootstrap/main.go"; DFunc "main.bootstrap" bootstrap] in
  if b then ret true else
  let* wd := chdir "cmd/peg-bootstrap/" in
  defer (chdir wd) (
    deleteFilesWithSuffix ".peg.go";;
    command "../../bootstrap/bootstrap" "" "" [];;
    command "go" "" "" ["build"; "-tags"; "bootstrap"; "-o"; "peg0"];;
    ret false).

Definition peg1 : M bool :=
  let* b := done "cmd/peg-bootstrap/peg1"
         [DFunc "main.peg0" peg0; DString "cmd/peg-bootstrap/bootstrap.peg"] in
  if b then ret true else
  let* wd := chdir "cmd/peg-bootstrap/" in
  defer (chdir wd) (
    deleteFilesWithSuffix ".peg.go";;
    command "./peg0" "bootstrap.peg" "peg1.peg.go" [];;
    command "go" "" "" ["build"; "-tags"; "bootstrap"; "-o"; "peg1"];;
    ret false).

Definition peg2 : M bool :=
  let* b := done "cmd/peg-bootstrap/peg2"
         [DFunc "main.peg1" peg1;
          DString "cmd/peg-bootstrap/peg.bootstrap.peg"] in
  if b then ret true else
  let* wd := chdir "cmd/peg-bootstrap/" in
  defer (chdir wd) (
    deleteFilesWithSuffix ".peg.go";;
    command "./peg1" "peg.bootstrap.peg" "peg2.peg.go" [];;
    command "go" "" "" ["build"; "-tags"; "bootstrap"; "-o"; "peg2"];;
    ret false).

Definition peg3 : M bool :=
  let* b := done "cmd/peg-bootstrap/peg3"
         [DFunc "main.peg2" peg2; DString "peg.peg"] in
  if b then ret true else
  let* wd := chdir "cmd/peg-bootstrap/" in
  defer (chdir wd) (
    deleteFilesWithSuffix ".peg.go";;
    command "./peg2" "../../peg.peg" "peg3.peg.go" [];;
    command "go" "" "" ["build"; "-tags"; "bootstrap"; "-o"; "peg3"];;
    ret false).

Definition peg_bootstrap : M bool :=
  let* b := done "cmd/peg-bootstrap/peg-bootstrap" [DFunc "main.peg3" peg3] in
  if b then ret true else
  let* wd := chdir "cmd/peg-bootstrap/" in
  defer (chdir wd) (
    deleteFilesWithSuffix ".peg.go";;
    command "./peg3" "../../peg.peg" "peg-bootstrap.peg.go" [];;
    command "go" "" "" ["build"; "-tags"; "bootstrap"; "-o"; "peg-bootstrap"];;
    ret false).

Definition peg_peg_go : M bool :=
  let* b := done "peg.peg.go" [DFunc "main.peg_bootstrap" peg_bootstrap] in
  if b then ret true else
  command "cmd/peg-bootstrap/peg-bootstrap" "peg.peg" "peg.peg.go" [];;
  command "go" "" "" ["build"];;
  command "./peg" "" "" ["-inline"; "-switch"; "peg.peg"];;
  ret false.

Definition peg : M bool :=
  let* b := done "peg" [DFunc "main.peg_peg_go" peg_peg_go; DString "main.go"] in
  if b then ret true else
  command "go" "" "" ["build"];;
  ret false.

Definition clean : M bool :=
  delete_ "bootstrap/bootstrap";;
  delete_ "grammars/c/c.peg.go";;
  delete_ "grammars/calculator/calculator.peg.go";;
  delete_ "grammars/fexl/fexl.peg.go";;
  delete_ "grammars/java/java_1_7.peg.go";;
  delete_ "grammars/long_test/long.peg.go";;
  let* wd := chdir "cmd/peg-bootstrap/" in
  defer (chdir wd) (
    deleteFilesWithSuffix ".peg.go";;
    delete_ "peg0";;
    delete_ "peg1";;
    delete_ "peg2";;
    delete_ "peg3";;
    delete_ "peg-bootstrap";;
    ret false).

Definition grammars_c : M bool :=
  let* b := done "grammars/c/c.peg.go"
         [DFunc "main.peg" peg; DString "grammars/c/c.peg"] in
  if b then ret true else
  let* wd := chdir "grammars/c/" in
  defer (chdir wd) (
    command "../../peg" "" "" ["-switch"; "-inline"; "c.peg"];;
    ret false).

Definition grammars_calculator : M bool :=
  let* b := done "grammars/calculator/calculator.peg.go"
         [DFunc "main.peg" peg; DString "grammars/calculator/calculator.peg"] in
  if b then ret true else
  let* wd := chdir "grammars/calculator/" in
  defer (chdir wd) (
    command "../../peg" "" "" ["-switch"; "-inline"; "calculator.peg"];;
    ret false).

Definition grammars_calculator_ast : M bool :=
  let* b := done "grammars/calculator_ast/calculator.peg.go"
         [DFunc "main.peg" peg;
          DString "grammars/calculator_ast/calculator.peg"] in
  if b then ret true else
  let* wd := chdir "grammars/calculator_ast/" in
  defer (chdir wd) (
    command "../../peg" "" "" ["-switch"; "-inline"; "calculator.peg"];;
    ret false).

Definition grammars_fexl : M bool :=
  let* b := done "grammars/fexl/fexl.peg.go"
         [DFunc "main.peg" peg; DString "grammars/fexl/fexl.peg"] in
  if b then ret true else
  let* wd := chdir "grammars/fexl/" in
  defer (chdir wd) (
    command "../../peg" "" "" ["-switch"; "-inline"; "fexl.peg"];;
    ret false).

Definition grammars_java : M bool :=
  let* b := done "grammars/java/java_1_7.peg.go"
         [DFunc "main.peg" peg; DString "grammars/java/java_1_7.peg"] in
  if b then ret true else
  let* wd := chdir "grammars/java/" in
  defer (chdir wd) (
    command "../../peg" "" "" ["-switch"; "-inline"; "java_1_7.peg"];;
    ret false).

Definition grammars_long_test : M bool :=
  let* b := done "grammars/long_test/long.peg.go"
         [DFunc "main.peg" peg; DString "grammars/long_test/long.peg"] in
  if b then ret true else
  let* wd := chdir "grammars/long_test/" in
  defer (chdir wd) (
    command "../../peg" "" "" ["-switch"; "-inline"; "long.peg"];;
    ret false).

Definition test : M bool :=
  let* b := done ""
         [DFunc "main.grammars_c" grammars_c;
          DFunc "main.grammars_calculator" grammars_calculator;
          DFunc "main.grammars_calculator_ast" grammars_calculator_ast;
          DFunc "main.grammars_fexl" grammars_fexl;
          DFunc "main.grammars_java" grammars_java;
          DFunc "main.grammars_long_test" grammars_long_test] in
  if b then ret true else
  command "go" "" "" ["test"; "-short"; "-tags"; "grammars"; "./..."];;
  ret false.

Definition bench : M bool :=
  peg;;
  command "go" "" "" ["test"; "-benchmem"; "-bench"; "."];;
  ret false.

(** [template.Execute] on an open file: one write, which the system may
    fail; the tree is then left as it is. *)
Definition Execute (infFile : Path) (inf : info) : M (option Err) :=
  let* err := gets (fun s => write_err ch (List.length (spawned s))) in
  match err with
  | Some e => ret (Some e)
  | None => modify (write_handle infFile (templ inf));; ret None
  end.

(** [infFile.Close()]: nothing the program can see. *)
Definition Close : M unit := ret tt.

Definition buildinfo : M unit :=
  log_SetPrefix "buildinfo:";;
  let* created :=
    (fun s => match os_Create s "buildinfo.go" with
              | Some (f, s') => Ok (Some f) s'
              | None => Ok None s
              end) in
  defer Close (
    match created with
    | None =>
        log_Println ["open buildinfo.go: fatal:";
                     error_text ch (PathError "open" "buildinfo.go")]
    | Some infFile =>
        let inf := mkBuildInfo "unknown" "" "" false in
        let* vers := run "git" ["tag"; "--contains"] None in
        let* inf :=
          match o_err vers with
          | Some err => log_Println ["error:"; error_text ch err];; ret inf
          | None =>
              if (1 <? String.length (o_stdout vers))%nat then
                ret (mkBuildInfo (TrimSuffix (o_stdout vers) nl)
                                 (Buildtime inf) (Commit inf) true)
              else
                let* vers :=
                  run "git" ["tag"; "--merged"; "--sort=v:refname"] None in
                match o_err vers with
                | Some err =>
                    log_Println ["error:"; error_text ch err];; ret inf
                | None =>
                    if (1 <? String.length (o_stdout vers))%nat then
                      let tags := Split (o_stdout vers) (ascii_of_nat 10) in
                      ret (mkBuildInfo (List.last tags "")
                                       (Buildtime inf) (Commit inf)
                                       (IsTagged inf))
                    else ret inf
                end
          end in
        let* cmit := run "git" ["rev-parse"; "HEAD"] None in
        (match o_err cmit with
         | Some err => log_Println ["error:"; error_text ch err]
         | None => ret tt
         end);;
        let inf := mkBuildInfo (Version inf) (Buildtime inf)
                               (TrimSuffix (o_stdout cmit) nl)
                               (IsTagged inf) in
        let* t := gets now in
        let inf := mkBuildInfo (Version inf) (clock_text ch t)
                               (Commit inf) (IsTagged inf) in
        let* err := Execute infFile inf in
        (match err with
         | Some err => log_Println ["error: template:"; error_text ch err]
         | None => ret tt
         end);;
        log_SetPrefix ""
    end).

(** [main], given [flag.Args()]. *)
Definition main (args : list string) : M unit :=
  let target := match args with
                | a :: _ => a
                | [] => "peg"
                end in
  if String.eqb target "buildinfo" then buildinfo
  else if String.eqb target "peg" then peg;; ret tt
  else if String.eqb target "clean" then clean;; ret tt
  else if String.eqb target "test" then test;; ret tt
  else if String.eqb target "bench" then bench;; ret tt
  else if String.eqb target "help" then
    Println "go run build.go [target]";;
    Println " peg - build peg from scratch";;
    Println " clean - clean up";;
    Println " test - run full test";;
    Println " bench - run benchmark";;
    Println " buildinfo - generate buildinfo.go"
  else ret tt.

End Build.

(** ** What the claims speak of *)

Definition is_other (d : Dep) : bool :=
  match d with
  | DOther _ => true
  | _ => false
  end.

Definition note_done (name : string) (s : State) : State :=
  add_stdout (name +:+ " is done" +:+ nl) s.

Definition note_evaluated (name : string) (result : bool) (s : State) : State :=
  set_processed (<[name := result]> (processed s)) (add_stdout (name +:+ nl) s).

(** The spec's reading of "up to date", for an output whose [os.Stat]
    gave [info]: every file dependency is there and not newer than the
    output, and every target dependency reported true, from the cache when
    it has an entry and by running it otherwise.  The state is threaded as
    the run threads it: a dependency is looked at when its turn comes. *)
Fixpoint UpToDate (info : FileInfo) (deps : list Dep) (s : State) : Prop :=
  match deps with
  | [] => True
  | DString d :: rest =>
      (exists fi, os_Stat s (FromSlash d) = Some fi
                  /\ (ModTime fi <= ModTime info)%Z)
      /\ UpToDate info rest s
  | DFunc name f :: rest =>
      match processed s !! name with
      | Some r => r = true /\ UpToDate info rest (note_done name s)
      | None =>
          exists s1, f s = Ok true s1
                     /\ UpToDate info rest (note_evaluated name true s1)
      end
  | DOther _ :: rest => UpToDate info rest s
  end.

(** *** A small repository to run the program on *)

Definition quiet_children : Children :=
  mkChildren (fun _ f t _ => mkOutcome f (t + 1) "" "" None) (fun _ => None)
             (fun _ => None) (fun _ => "failed")
             (fun _ => "2020-01-01T00:00:00").


Definition dirs_of (l : list Path) : list (Path * Node) :=
  List.map (fun p => (p, Dir 1)) l.
Definition files_of (t : Z) (l : list Path) : list (Path * Node) :=
  List.map (fun p => (p, File t "")) l.

Definition repo_dirs : list Path :=
  [ ["repo"]; ["repo"; "bootstrap"]; ["repo"; "tree"]; ["repo"; "cmd"];
    ["repo"; "cmd"; "peg-bootstrap"]; ["repo"; "grammars"];
    ["repo"; "grammars"; "c"]; ["repo"; "grammars"; "calculator"];
    ["repo"; "grammars"; "calculator_ast"]; ["repo"; "grammars"; "fexl"];
    ["repo"; "grammars"; "java"]; ["repo"; "grammars"; "long_test"] ].

Definition repo_sources : list Path :=
  [ ["repo"; "bootstrap"; "main.go"]; ["repo"; "tree"; "peg.go"];
    ["repo"; "cmd"; "peg-bootstrap"; "main.go"];
    ["repo"; "cmd"; "peg-bootstrap"; "bootstrap.peg"];
    ["repo"; "cmd"; "peg-bootstrap"; "peg.bootstrap.peg"];
    ["repo"; "peg.peg"]; ["repo"; "main.go"];
    ["repo"; "grammars"; "c"; "c.peg"];
    ["repo"; "grammars"; "calculator"; "calculator.peg"];
    ["repo"; "grammars"; "calculator_ast"; "calculator.peg"];
    ["repo"; "grammars"; "fexl"; "fexl.peg"];
    ["repo"; "grammars"; "java"; "java_1_7.peg"];
    ["repo"; "grammars"; "long_test"; "long.peg"] ].

Definition repo_outputs : list Path :=
  [ ["repo"; "bootstrap"; "bootstrap"];
    ["repo"; "cmd"; "peg-bootstrap"; "peg0"];
    ["repo"; "cmd"; "peg-bootstrap"; "peg1"];
    ["repo"; "cmd"; "peg-bootstrap"; "peg2"];
    ["repo"; "cmd"; "peg-bootstrap"; "peg3"];
    ["repo"; "cmd"; "peg-bootstrap"; "peg-bootstrap"];
    ["repo"; "peg.peg.go"]; ["repo"; "peg"];
    ["repo"; "grammars"; "c"; "c.peg.go"];
    ["repo"; "grammars"; "calculator"; "calculator.peg.go"];
    ["repo"; "grammars"; "calculator_ast"; "calculator.peg.go"];
    ["repo"; "grammars"; "fexl"; "fexl.peg.go"];
    ["repo"; "grammars"; "java"; "java_1_7.peg.go"];
    ["repo"; "grammars"; "long_test"; "long.peg.go"] ].

(** Sources written at time 1, every output built at time 2. *)
Definition built_fs : gmap Path Node :=
  list_to_map (dirs_of repo_dirs ++ files_of 1 repo_sources
               ++ files_of 2 repo_outputs).

(** The same tree before anything was built. *)
Definition fresh_fs : gmap Path Node :=
  list_to_map (dirs_of repo_dirs ++ files_of 1 repo_sources).

Definition start_in (f : gmap Path Node) : State :=
  mkState ["repo"] f 10 ∅ [] "" [] [].

Definition built : State := start_in built_fs.
Definition fresh : State := start_in fresh_fs.


(** *** Frames: how a computation may move the state *)

(** [steps R m]: whatever [m] does, returning or panicking, the state it
    leaves is [R]-related to the one it found. *)
Definition steps {A : Type} (R : relation State) (m : M A) : Prop :=
  forall s, R s (final_state (m s)).

Definition same {X : Type} (proj : State -> X) : relation State :=
  fun s s' => proj s' = proj s.

(** The output grew by chunks that all satisfy [P]. *)
Definition wrote (P : string -> Prop) : relation State :=
  fun s s' => exists l, stdout s' = stdout s ++ l /\ Forall P l.


(** A chunk that is not the line [done] prints for a target it has run:
    every target is named [main.…]. *)
Definition not_m (c : string) : Prop :=
  match c with
  | String "m"%char _ => False
  | _ => True
  end.


(** *** The shape every target function has *)

(** [wd := chdir(dir); defer chdir(wd); body]. *)
Definition scoped {A : Type} (dir : string) (body : M A) : M A :=
  let* wd := chdir dir in
  defer (chdir wd) body.

(** [if done(file, deps...) { return true }; action; return false]. *)
Definition target (file : string) (deps : list Dep) (action : M unit)
  : M bool :=
  let* b := done file deps in
  if b then ret true else (action;; ret false).

(** *** Fail-stop runs *)

Definition all_ok (l : list (Invocation * option Err)) : Prop :=
  Forall (fun x => x.2 = None) l.

(** From a trace without failures, [m] leaves a trace without failures
    when it returns, and one where only the last child may have failed
    when it panics. *)
Definition fail_stop {A : Type} (m : M A) : Prop :=
  forall s, all_ok (spawned s) ->
    match m s with
    | Ok _ s' => all_ok (spawned s')
    | Panic _ s' => all_ok (removelast (spawned s'))
    end.


(** A property asked of the targets a dependency list refers to. *)
Definition dep_prop (P : M bool -> Prop) (d : Dep) : Prop :=
  match d with
  | DFunc _ f => P f
  | _ => True
  end.

(** *** The working directory *)

(** The name [os.Getwd] gives for the working directory leads back to it
    from anywhere (it is a rooted name of plain components). *)
Definition wd_ok (s : State) : Prop :=
  forall c, resolve c (FromSlash (render (cwd s))) = cwd s.

(** The errors of [chdir]: of [os.Getwd] and of [os.Chdir]. *)
Definition switch_err (e : Err) : Prop :=
  match e with
  | SyscallError op => op = "getwd"
  | PathError op _ => op = "chdir"
  | _ => False
  end.

(** [m] leaves the working directory where it found it, unless it dies of
    a failed directory switch. *)
Definition restores {A : Type} (m : M A) : Prop :=
  forall s, wd_ok s ->
    match m s with
    | Ok _ s' => cwd s' = cwd s
    | Panic e s' => cwd s' = cwd s \/ switch_err e
    end.


(** *** Each target is run at most once *)

(** The names [runtime.FuncForPC] gives the target functions. *)
Definition target_names : list string :=
  [ "main.bootstrap"; "main.peg0"; "main.peg1"; "main.peg2"; "main.peg3";
    "main.peg_bootstrap"; "main.peg_peg_go"; "main.peg";
    "main.grammars_c"; "main.grammars_calculator";
    "main.grammars_calculator_ast"; "main.grammars_fexl";
    "main.grammars_java"; "main.grammars_long_test"; "main.test" ].

(** How often [done] has printed the line [name], which it prints each
    time a call [dep()] of the target of that name has returned. *)
Definition ran (n : string) (s : State) : nat :=
  count_occ string_dec (stdout s) (n +:+ nl).

(** No target was run twice, and one that was run is in the cache. *)
Definition Inv (s : State) : Prop :=
  forall n, In n target_names ->
    (ran n s <= 1)%nat /\ (ran n s = 1%nat -> is_Some (processed s !! n)).

Definition cache_grows : relation State :=
  fun s s' => forall n, is_Some (processed s !! n) -> is_Some (processed s' !! n).

(** [m] keeps [Inv], forgets no cache entry and runs only targets of [F]. *)
Definition once {A : Type} (F : list string) (m : M A) : Prop :=
  forall s, Inv s ->
    Inv (final_state (m s))
    /\ cache_grows s (final_state (m s))
    /\ forall n, In n target_names -> ~ In n F ->
         ran n (final_state (m s)) = ran n s.

Definition dep_once (F : list string) (d : Dep) : Prop :=
  match d with
  | DFunc n f => exists F', once F' f /\ incl F' F /\ In n F /\ ~ In n F'
  | _ => True
  end.

Fixpoint spaceless (x : string) : bool :=
  match x with
  | EmptyString => true
  | String c r => negb (Ascii.eqb c " ") && spaceless r
  end.


(** *** What lies outside the program, and what an action starts *)

Definition world (s : State)
  : Path * gmap Path Node * Z * list (Invocation * option Err) :=
  (cwd s, fs s, now s, spawned s).

(** A target that reports true has started no child and has left the file
    tree, the clock and the working directory alone. *)
Definition quiet_if_true (m : M bool) : Prop :=
  forall s s', m s = Ok true s' -> world s' = world s.

Definition sig (x : Invocation * option Err) : string * list string :=
  (i_name x.1, i_args x.1).

(** When [m] returns it has started the commands [cmds], in this order,
    and none of them failed. *)
Definition spawns {A : Type} (cmds : list (string * list string)) (m : M A)
  : Prop :=
  forall s a s', m s = Ok a s' ->
    exists l, spawned s' = spawned s ++ l /\ List.map sig l = cmds /\ all_ok l.


(** *** The targets, taken apart

    Each target function is [target file deps action]: a row names the
    function of the program, the arguments of its call of [done], the
    statements after it (its action) and the commands those start. *)

Record Row : Type := mkRow {
  row_name : string;
  row_fn : M bool;
  row_file : string;
  row_deps : list Dep;
  row_action : M unit;
  row_cmds : list (string * list string)
}.

Definition stage (ch : Children) (gen input out bin : string) : M unit :=
  scoped "cmd/peg-bootstrap/"
    (deleteFilesWithSuffix ".peg.go";;
     command ch gen input out [];;
     command ch "go" "" "" ["build"; "-tags"; "bootstrap"; "-o"; bin]).

Definition grammar (ch : Children) (dir file : string) : M unit :=
  scoped dir (command ch "../../peg" "" "" ["-switch"; "-inline"; file]).

Definition rows (ch : Children) : list Row :=
  [ mkRow "main.bootstrap" (bootstrap ch) "bootstrap/bootstrap"
      [DString "bootstrap/main.go"; DString "tree/peg.go"]
      (scoped "bootstrap" (command ch "go" "" "" ["build"]))
      [("go", ["build"])];
    mkRow "main.peg0" (peg0 ch) "cmd/peg-bootstrap/peg0"
      [DString "cmd/peg-bootstrap/main.go";
       DFunc "main.bootstrap" (bootstrap ch)]
      (stage ch "../../bootstrap/bootstrap" "" "" "peg0")
      [("../../bootstrap/bootstrap", []);
       ("go", ["build"; "-tags"; "bootstrap"; "-o"; "peg0"])];
    mkRow "main.peg1" (peg1 ch) "cmd/peg-bootstrap/peg1"
      [DFunc "main.peg0" (peg0 ch);
       DString "cmd/peg-bootstrap/bootstrap.peg"]
      (stage ch "./peg0" "bootstrap.peg" "peg1.peg.go" "peg1")
      [("./peg0", []);
       ("go", ["build"; "-tags"; "bootstrap"; "-o"; "peg1"])];
    mkRow "main.peg2" (peg2 ch) "cmd/peg-bootstrap/peg2"
      [DFunc "main.peg1" (peg1 ch);
       DString "cmd/peg-bootstrap/peg.bootstrap.peg"]
      (stage ch "./peg1" "peg.bootstrap.peg" "peg2.peg.go" "peg2")
      [("./peg1", []);
       ("go", ["build"; "-tags"; "bootstrap"; "-o"; "peg2"])];
    mkRow "main.peg3" (peg3 ch) "cmd/peg-bootstrap/peg3"
      [DFunc "main.peg2" (peg2 ch); DString "peg.peg"]
      (stage ch "./peg2" "../../peg.peg" "peg3.peg.go" "peg3")
      [("./peg2", []);
       ("go", ["build"; "-tags"; "bootstrap"; "-o"; "peg3"])];
    mkRow "main.peg_bootstrap" (peg_bootstrap ch)
      "cmd/peg-bootstrap/peg-bootstrap"
      [DFunc "main.peg3" (peg3 ch)]
      (stage ch "./peg3" "../../peg.peg" "peg-bootstrap.peg.go"
             "peg-bootstrap")
      [("./peg3", []);
       ("go", ["build"; "-tags"; "bootstrap"; "-o"; "peg-bootstrap"])];
    mkRow "main.peg_peg_go" (peg_peg_go ch) "peg.peg.go"
      [DFunc "main.peg_bootstrap" (peg_bootstrap ch)]
      (command ch "cmd/peg-bootstrap/peg-bootstrap" "peg.peg" "peg.peg.go" [];;
       command ch "go" "" "" ["build"];;
       command ch "./peg" "" "" ["-inline"; "-switch"; "peg.peg"])
      [("cmd/peg-bootstrap/peg-bootstrap", []); ("go", ["build"]);
       ("./peg", ["-inline"; "-switch"; "peg.peg"])];
    mkRow "main.peg" (peg ch) "peg"
      [DFunc "main.peg_peg_go" (peg_peg_go ch); DString "main.go"]
      (command ch "go" "" "" ["build"])
      [("go", ["build"])];
    mkRow "main.grammars_c" (grammars_c ch) "grammars/c/c.peg.go"
      [DFunc "main.peg" (peg ch); DString "grammars/c/c.peg"]
      (grammar ch "grammars/c/" "c.peg")
      [("../../peg", ["-switch"; "-inline"; "c.peg"])];
    mkRow "main.grammars_calculator" (grammars_calculator ch)
      "grammars/calculator/calculator.peg.go"
      [DFunc "main.peg" (peg ch);
       DString "grammars/calculator/calculator.peg"]
      (grammar ch "grammars/calculator/" "calculator.peg")
      [("../../peg", ["-switch"; "-inline"; "calculator.peg"])];
    mkRow "main.grammars_calculator_ast" (grammars_calculator_ast ch)
      "grammars/calculator_ast/calculator.peg.go"
      [DFunc "main.peg" (peg ch);
       DString "grammars/calculator_ast/calculator.peg"]
      (grammar ch "grammars/calculator_ast/" "calculator.peg")
      [("../../peg", ["-switch"; "-inline"; "calculator.peg"])];
    mkRow "main.grammars_fexl" (grammars_fexl ch) "grammars/fexl/fexl.peg.go"
      [DFunc "main.peg" (peg ch); DString "grammars/fexl/fexl.peg"]
      (grammar ch "grammars/fexl/" "fexl.peg")
      [("../../peg", ["-switch"; "-inline"; "fexl.peg"])];
    mkRow "main.grammars_java" (grammars_java ch)
      "grammars/java/java_1_7.peg.go"
      [DFunc "main.peg" (peg ch); DString "grammars/java/java_1_7.peg"]
      (grammar ch "grammars/java/" "java_1_7.peg")
      [("../../peg", ["-switch"; "-inline"; "java_1_7.peg"])];
    mkRow "main.grammars_long_test" (grammars_long_test ch)
      "grammars/long_test/long.peg.go"
      [DFunc "main.peg" (peg ch); DString "grammars/long_test/long.peg"]
      (grammar ch "grammars/long_test/" "long.peg")
      [("../../peg", ["-switch"; "-inline"; "long.peg"])];
    mkRow "main.test" (test ch) ""
      [DFunc "main.grammars_c" (grammars_c ch);
       DFunc "main.grammars_calculator" (grammars_calculator ch);
       DFunc "main.grammars_calculator_ast" (grammars_calculator_ast ch);
       DFunc "main.grammars_fexl" (grammars_fexl ch);
       DFunc "main.grammars_java" (grammars_java ch);
       DFunc "main.grammars_long_test" (grammars_long_test ch)]
      (command ch "go" "" ""
               ["test"; "-short"; "-tags"; "grammars"; "./..."])
      [("go", ["test"; "-short"; "-tags"; "grammars"; "./..."])] ].

(** What each target is shown to do, and what its action is shown to do. *)
Record good_target (F : list string) (t : M bool) : Prop := mkGoodTarget {
  gt_stop : fail_stop t;
  gt_rest : restores t;
  gt_once : once F t;
  gt_quiet : quiet_if_true t
}.

Record good_action (cmds : list (string * list string)) (a : M unit)
  : Prop := mkGoodAction {
  ga_stop : fail_stop a;
  ga_rest : restores a;
  ga_cache : steps (same processed) a;
  ga_out : steps (wrote not_m) a;
  ga_spawns : spawns cmds a
}.

Definition good_dep (F : list string) (d : Dep) : Prop :=
  match d with
  | DFunc n f =>
      exists F', good_target F' f /\ incl F' F /\ In n F /\ ~ In n F'
  | _ => True
  end.


(** The targets a target may run, directly or through others. *)
Definition below_peg : list string :=
  [ "main.peg_peg_go"; "main.peg_bootstrap"; "main.peg3"; "main.peg2";
    "main.peg1"; "main.peg0"; "main.bootstrap" ].

Definition below_grammar : list string := "main.peg" :: below_peg.

Definition below_test : list string :=
  [ "main.grammars_c"; "main.grammars_calculator";
    "main.grammars_calculator_ast"; "main.grammars_fexl";
    "main.grammars_java"; "main.grammars_long_test" ] ++ below_grammar.


(** The functions of the program that [main] can call, and those they call. *)
Definition functions (ch : Children) : list (M bool) :=
  List.map row_fn (rows ch) ++ [clean; bench ch].


(** A projection of the state that printing, file writes, directory
    changes and children leave alone. *)
Definition ignores_stdout {X : Type} (proj : State -> X) : Prop :=
  forall y s, proj (add_stdout y s) = proj s.
Definition ignores_fs {X : Type} (proj : State -> X) : Prop :=
  forall f s, proj (set_fs f s) = proj s.
Definition ignores_cwd {X : Type} (proj : State -> X) : Prop :=
  forall d s, proj (set_cwd d s) = proj s.
Definition ignores_child {X : Type} (proj : State -> X) : Prop :=
  forall inv o s, proj (after_child inv o s) = proj s.

Definition never_true (m : M bool) : Prop := forall s s', m s <> Ok true s'.

(** Dependencies that are not targets. *)
Definition files_only (deps : list Dep) : Prop :=
  Forall (fun d => match d with DFunc _ _ => False | _ => True end) deps.




(** *** Cleaning *)


(** A step that may only remove entries of the file tree. *)
Definition tidy : relation State :=
  fun s s' =>
    cwd s' = cwd s /\ processed s' = processed s
    /\ spawned s' = spawned s /\ fs s' ⊆ fs s.


(** When [m] returns from a state in [P], result and state are in [Q]. *)
Definition post {A : Type} (P : State -> Prop) (m : M A)
  (Q : A -> State -> Prop) : Prop :=
  forall s a s', P s -> m s = Ok a s' -> Q a s'.






(** The row of the program for [peg], with the children that never fail. *)
Definition peg_row : Row :=
  mkRow "main.peg" (peg quiet_children) "peg"
    [DFunc "main.peg_peg_go" (peg_peg_go quiet_children); DString "main.go"]
    (command quiet_children "go" "" "" ["build"])
    [("go", ["build"])].


(** What a run returned, if it returned. *)
Definition returned {A : Type} (r : Result A) : option A :=
  match r with
  | Ok a _ => Some a
  | Panic _ _ => None
  end.


(** The [n]-th row of the program. *)
Definition row_at (n : nat) : Row := List.nth n (rows quiet_children) peg_row.


(** The built repository, seen from [cmd/peg-bootstrap], with a generated
    parser left over from a stage. *)
Definition in_stage_dir : State :=
  set_cwd ["repo"; "cmd"; "peg-bootstrap"]
    (start_in (<[ ["repo"; "cmd"; "peg-bootstrap"; "peg1.peg.go"]
                  := File 2 "" ]> built_fs)).


(** The names [main] knows. *)
Definition known_targets : list string :=
  [ "buildinfo"; "peg"; "clean"; "test"; "bench"; "help" ].


(** Children for a checkout on which no tag points: [git tag --contains]
    prints nothing, [git tag --merged] prints two tags, one per line. *)
Definition untagged_children : Children :=
  mkChildren
    (fun _ f t inv =>
       mkOutcome f (t + 1)
         (match i_args inv with
          | ["tag"; "--contains"] => ""
          | ["tag"; "--merged"; "--sort=v:refname"] =>
              "v1.0.0" +:+ nl +:+ "v1.1.0" +:+ nl
          | _ => "0123abcd" +:+ nl
          end)
         "" None)
    (fun _ => None) (fun _ => None) (fun _ => "failed")
    (fun _ => "2020-01-01T00:00:00").

(** * Proofs *)

Ltac unfold_m :=
  unfold bind, ret, gets, modify, must, must_set, panic, Print in *;
  cbv beta in *.

Section Proofs.

Variable ch : Children.

(** ** The loop of [done] *)

Lemma done_unfold file deps s :
  done file deps s =
  done_loop (os_Stat s (FromSlash file))
            (match os_Stat s (FromSlash file) with
             | Some _ => true
             | None => false
             end)
            deps s.
Proof. reflexivity. Qed.

Lemma done_loop_cons info fini d rest s :
  done_loop info fini (d :: rest) s =
  match done_dep info fini d s with
  | Ok fini' s' => done_loop info fini' rest s'
  | Panic e s' => Panic e s'
  end.
Proof. reflexivity. Qed.

Lemma done_loop_app info fini pre post s :
  done_loop info fini (pre ++ post) s =
  match done_loop info fini pre s with
  | Ok fini' s' => done_loop info fini' post s'
  | Panic e s' => Panic e s'
  end.
Proof.
  revert fini s. induction pre as [|d pre IH]; intros fini s; [reflexivity|].
  simpl app. rewrite !done_loop_cons.
  destruct (done_dep info fini d s); [apply IH | reflexivity].
Qed.

(** A turn of the loop never raises the flag. *)
Lemma done_dep_false info d s b s' :
  done_dep info false d s = Ok b s' -> b = false.
Proof.
  destruct d as [dep|name f|v]; simpl; unfold_m.
  - destruct info as [info|]; [|congruence].
    destruct (os_Stat s (FromSlash dep)); [|discriminate].
    destruct (After _ _); cbv beta; congruence.
  - destruct (processed s !! name); simpl; [congruence|].
    destruct (f s); simpl; congruence.
  - congruence.
Qed.

Lemma done_loop_false info deps s b s' :
  done_loop info false deps s = Ok b s' -> b = false.
Proof.
  revert s. induction deps as [|d rest IH]; intros s.
  - simpl. unfold ret. congruence.
  - rewrite done_loop_cons.
    destruct (done_dep info false d s) as [b1 s1|] eqn:E; [|discriminate].
    apply done_dep_false in E. subst b1. apply IH.
Qed.

Lemma done_loop_spec info fini deps s b s' :
  done_loop (Some info) fini deps s = Ok b s' ->
  (b = true <-> fini = true /\ UpToDate info deps s).
Proof.
  revert fini s. induction deps as [|d rest IH]; intros fini s.
  - simpl. unfold ret. intros [= <- <-]. tauto.
  - rewrite done_loop_cons.
    destruct d as [dep|name f|v]; simpl; unfold_m.
    + destruct (os_Stat s (FromSlash dep)) as [fi|] eqn:Estat; [|discriminate].
      unfold After. destruct (Z.ltb_spec (ModTime info) (ModTime fi)) as [Hlt|Hle].
      * intros H. pose proof (done_loop_false _ _ _ _ _ H) as ->.
        split; [discriminate|]. intros (_ & (fi' & [= <-] & Hle) & _). lia.
      * intros H. rewrite (IH _ _ H). split.
        -- intros [-> Hu]. repeat split; eauto.
        -- intros (-> & _ & Hu). tauto.
    + destruct (processed s !! name) as [r|] eqn:Ec.
      * intros H. rewrite (IH _ _ H). unfold note_done.
        rewrite andb_true_iff. tauto.
      * destruct (f s) as [r s1|] eqn:Ef; [|discriminate].
        intros H. rewrite (IH _ _ H). unfold note_evaluated.
        rewrite andb_true_iff. split.
        -- intros [[-> ->] Hu]. eauto.
        -- intros (-> & s1' & [= <- <-] & Hu). tauto.
    + apply IH.
Qed.

(** C1. [done] reports true exactly when the output is there, every file
    dependency is there and not newer than it, and every target
    dependency reported true. *)
Theorem C1_done_true_iff_up_to_date file deps s b s' :
  done file deps s = Ok b s' ->
  (b = true <->
   exists info, os_Stat s (FromSlash file) = Some info
                /\ UpToDate info deps s).
Proof.
  rewrite done_unfold.
  destruct (os_Stat s (FromSlash file)) as [info|] eqn:Estat.
  - intros H. rewrite (done_loop_spec _ _ _ _ _ _ H). split.
    + intros [_ Hu]. eauto.
    + intros (info' & [= <-] & Hu). tauto.
  - intros H. pose proof (done_loop_false _ _ _ _ _ H) as ->.
    split; [discriminate|]. intros (? & ? & _). discriminate.
Qed.

(** ** Frames *)

Section Steps.
Context {R : relation State} {HR : PreOrder R}.

Lemma steps_ret {A} (a : A) : steps R (ret a).
Proof. intros s. simpl. reflexivity. Qed.

Lemma steps_panic {A} (e : Err) : steps R (@panic A e).
Proof. intros s. simpl. reflexivity. Qed.

Lemma steps_gets {A} (f : State -> A) : steps R (gets f).
Proof. intros s. simpl. reflexivity. Qed.

Lemma steps_must {A} (call : State -> option A) e : steps R (must call e).
Proof. intros s. unfold must. destruct (call s); simpl; reflexivity. Qed.

Lemma steps_modify (f : State -> State) :
  (forall s, R s (f s)) -> steps R (modify f).
Proof. intros H s. simpl. apply H. Qed.

Lemma steps_must_set (call : State -> option State) e :
  (forall s s', call s = Some s' -> R s s') -> steps R (must_set call e).
Proof.
  intros H s. unfold must_set. destruct (call s) eqn:E; simpl.
  - eauto.
  - reflexivity.
Qed.

Lemma steps_bind {A B} (m : M A) (f : A -> M B) :
  steps R m -> (forall a, steps R (f a)) -> steps R (bind m f).
Proof.
  intros Hm Hf s. unfold bind. specialize (Hm s).
  destruct (m s) as [a s1|e s1]; simpl in *.
  - etransitivity; [exact Hm | apply Hf].
  - exact Hm.
Qed.

Lemma steps_defer {A B} (d : M B) (body : M A) :
  steps R d -> steps R body -> steps R (defer d body).
Proof.
  intros Hd Hb s. unfold defer. specialize (Hb s).
  destruct (body s) as [a s1|e s1]; simpl in *;
    specialize (Hd s1); destruct (d s1); simpl in *;
    etransitivity; eauto.
Qed.

Lemma steps_for_each {A} (body : A -> M unit) (l : list A) :
  (forall a, steps R (body a)) -> steps R (for_each body l).
Proof.
  intros H. induction l as [|x l IH]; simpl.
  - apply steps_ret.
  - apply steps_bind; [apply H | intros _; exact IH].
Qed.
End Steps.

#[global] Instance same_preorder {X} (proj : State -> X) : PreOrder (same proj).
Proof.
  split.
  - intros s. reflexivity.
  - intros s1 s2 s3 H1 H2. unfold same in *. congruence.
Qed.

#[global] Instance wrote_preorder P : PreOrder (wrote P).
Proof.
  split.
  - intros s. exists []. rewrite app_nil_r. auto.
  - intros s1 s2 s3 (l1 & E1 & F1) (l2 & E2 & F2). exists (l1 ++ l2).
    rewrite E2, E1, <- app_assoc. split; [reflexivity|].
    apply Forall_app; auto.
Qed.

Lemma steps_Print_same {X} (proj : State -> X) x :
  (forall y s, proj (add_stdout y s) = proj s) -> steps (same proj) (Print x).
Proof. intros H. apply steps_modify. intros s. apply H. Qed.

Lemma steps_Print_wrote (P : string -> Prop) x : P x -> steps (wrote P) (Print x).
Proof.
  intros H. apply steps_modify. intros s. exists [x]. simpl. auto.
Qed.

Ltac steps_tac :=
  cbv zeta;
  repeat match goal with
    | |- steps _ (ret _) => apply steps_ret
    | |- steps _ (panic _) => apply steps_panic
    | |- steps _ (gets _) => apply steps_gets
    | |- steps _ (must _ _) => apply steps_must
    | |- steps _ (bind _ _) => apply steps_bind; [|intros ?]
    | |- steps _ (defer _ _) => apply steps_defer
    | |- steps _ (for_each _ _) => apply steps_for_each; intros ?
    | |- steps _ (match ?x with _ => _ end) => destruct x
    | |- steps _ (modify _) => apply steps_modify; intros ?
    | |- steps _ (must_set _ _) => apply steps_must_set; intros ? ? ?
    end.

Lemma os_Chdir_inv s d s' :
  os_Chdir s d = Some s' -> s' = set_cwd (resolve (cwd s) d) s.
Proof.
  unfold os_Chdir. destruct (String.eqb d ""); [discriminate|].
  destruct (lookup_node _ _) as [[|]|]; congruence.
Qed.

Lemma os_WriteFile_inv s name data s' :
  os_WriteFile s name data = Some s' ->
  s' = set_fs (<[resolve (cwd s) name := File (now s) data]> (fs s)) s.
Proof.
  unfold os_WriteFile. destruct (String.eqb name ""); [discriminate|].
  destruct (resolve (cwd s) name) eqn:E; [discriminate|].
  destruct (lookup_node (fs s) (removelast _)) as [[|]|]; try discriminate.
  destruct (lookup_node (fs s) _) as [[|]|]; congruence.
Qed.

Lemma os_Remove_inv s name s' :
  os_Remove s name = Some s' ->
  s' = set_fs (delete (resolve (cwd s) name) (fs s)) s.
Proof.
  unfold os_Remove. destruct (String.eqb name ""); [discriminate|].
  destruct (resolve (cwd s) name) eqn:E; [discriminate|].
  destruct (lookup_node (fs s) _) as [[|]|]; try discriminate; [congruence|].
  destruct (entries _ _); congruence.
Qed.

Lemma chdir_same {X} (proj : State -> X) dir :
  ignores_stdout proj -> ignores_cwd proj -> steps (same proj) (chdir dir).
Proof.
  intros H1 H2. unfold chdir. steps_tac.
  - apply os_Chdir_inv in H. subst. apply H2.
  - apply steps_Print_same, H1.
Qed.

Lemma delete_same {X} (proj : State -> X) file :
  ignores_stdout proj -> ignores_fs proj -> steps (same proj) (delete_ file).
Proof.
  intros H1 H2. unfold delete_. steps_tac.
  - apply steps_Print_same, H1.
  - destruct (os_Remove _ _) eqn:E; [|reflexivity].
    apply os_Remove_inv in E. subst. apply H2.
Qed.

Lemma deleteFilesWithSuffix_same {X} (proj : State -> X) suffix :
  ignores_stdout proj -> ignores_fs proj ->
  steps (same proj) (deleteFilesWithSuffix suffix).
Proof.
  intros H1 H2. unfold deleteFilesWithSuffix. steps_tac.
  apply delete_same; assumption.
Qed.

Lemma run_same {X} (proj : State -> X) name arg input :
  ignores_child proj -> steps (same proj) (run ch name arg input).
Proof. intros H s. apply H. Qed.

Lemma command_same {X} (proj : State -> X) name i o arg :
  ignores_stdout proj -> ignores_fs proj -> ignores_child proj ->
  steps (same proj) (command ch name i o arg).
Proof.
  intros H1 H2 H3. unfold command. steps_tac;
    try (apply steps_Print_same, H1); try (apply run_same; assumption).
  apply os_WriteFile_inv in H. subst. apply H2.
Qed.

Lemma wrote_quiet P s s' : stdout s' = stdout s -> wrote P s s'.
Proof. intros E. exists []. rewrite app_nil_r. auto. Qed.

Lemma chdir_wrote dir : steps (wrote not_m) (chdir dir).
Proof.
  unfold chdir. steps_tac.
  - apply os_Chdir_inv in H. subst. by apply wrote_quiet.
  - apply steps_Print_wrote. exact I.
Qed.

Lemma delete_wrote file : steps (wrote not_m) (delete_ file).
Proof.
  unfold delete_. steps_tac.
  - apply steps_Print_wrote. exact I.
  - destruct (os_Remove _ _) eqn:E; [|reflexivity].
    apply os_Remove_inv in E. subst. by apply wrote_quiet.
Qed.

Lemma deleteFilesWithSuffix_wrote suffix :
  steps (wrote not_m) (deleteFilesWithSuffix suffix).
Proof.
  unfold deleteFilesWithSuffix. steps_tac. apply delete_wrote.
Qed.

Lemma command_wrote name i o arg :
  not_m (FromSlash name) -> steps (wrote not_m) (command ch name i o arg).
Proof.
  intros Hn. unfold command. steps_tac;
    try (apply steps_Print_wrote; first [exact Hn | exact I]);
    try (intros s; by apply wrote_quiet).
  all: try (apply os_WriteFile_inv in H; subst; by apply wrote_quiet).
Qed.

(** ** Taking a run apart *)

Lemma bind_Ok {A B} (m : M A) (f : A -> M B) s b s' :
  bind m f s = Ok b s' -> exists a s1, m s = Ok a s1 /\ f a s1 = Ok b s'.
Proof. unfold bind. destruct (m s); [eauto | discriminate]. Qed.

Lemma bind_Panic {A B} (m : M A) (f : A -> M B) s e s' :
  bind m f s = Panic e s' ->
  m s = Panic e s' \/ exists a s1, m s = Ok a s1 /\ f a s1 = Panic e s'.
Proof.
  unfold bind. destruct (m s); intros H; [right; eauto | left; congruence].
Qed.

Lemma steps_Ok {A} (R : relation State) (m : M A) s a s' :
  steps R m -> m s = Ok a s' -> R s s'.
Proof. intros H E. specialize (H s). by rewrite E in H. Qed.

Lemma steps_Panic {A} (R : relation State) (m : M A) s e s' :
  steps R m -> m s = Panic e s' -> R s s'.
Proof. intros H E. specialize (H s). by rewrite E in H. Qed.

Lemma defer_ret {A B C} (d : M B) (body : M A) (c : C) s :
  defer d (body;; ret c) s = (defer d body;; ret c) s.
Proof.
  unfold defer, bind, ret. destruct (body s); destruct (d _); reflexivity.
Qed.

Lemma scoped_ret {A C} dir (body : M A) (c : C) s :
  scoped dir (body;; ret c) s = (scoped dir body;; ret c) s.
Proof.
  pose proof (fun wd => defer_ret (chdir wd) body c) as D.
  unfold scoped, bind in *. destruct (chdir dir s); [|reflexivity].
  apply D.
Qed.

(** ** Fail-stop *)

Lemma all_ok_removelast l : all_ok l -> all_ok (removelast l).
Proof.
  unfold all_ok. induction 1 as [|x l Hx Hl IH]; simpl; [constructor|].
  destruct l; [constructor|]. constructor; assumption.
Qed.

Lemma fail_stop_steps {A} (m : M A) : steps (same spawned) m -> fail_stop m.
Proof.
  intros H s Hs. specialize (H s). unfold same in H.
  destruct (m s); simpl in H; rewrite H; auto using all_ok_removelast.
Qed.

Lemma fail_stop_bind {A B} (m : M A) (f : A -> M B) :
  fail_stop m -> (forall a, fail_stop (f a)) -> fail_stop (bind m f).
Proof.
  intros Hm Hf s Hs. unfold bind. specialize (Hm s Hs).
  destruct (m s) as [a s1|e s1]; [apply Hf, Hm | exact Hm].
Qed.

Lemma fail_stop_defer {A B} (d : M B) (body : M A) :
  steps (same spawned) d -> fail_stop body -> fail_stop (defer d body).
Proof.
  intros Hd Hb s Hs. unfold defer. specialize (Hb s Hs).
  destruct (body s) as [a s1|e s1]; specialize (Hd s1); unfold same in Hd;
    destruct (d s1); simpl in Hd; rewrite Hd; auto using all_ok_removelast.
Qed.

Lemma fail_stop_ext {A} (m m' : M A) :
  (forall s, m s = m' s) -> fail_stop m' -> fail_stop m.
Proof. intros E H s Hs. rewrite E. by apply H. Qed.

Lemma fail_stop_command name i o arg : fail_stop (command ch name i o arg).
Proof.
  unfold command. cbv zeta.
  apply fail_stop_bind; [apply fail_stop_steps; steps_tac; by apply steps_Print_same|intros _].
  apply fail_stop_bind;
    [apply fail_stop_steps; steps_tac; by apply steps_Print_same|intros _].
  apply fail_stop_bind;
    [apply fail_stop_steps; steps_tac; by apply steps_Print_same|intros input].
  assert (Hrun : forall k : Outcome -> M unit,
             (forall o, steps (same spawned) (k o)) ->
             (forall o s, o_err o <> None -> exists e s', k o s = Panic e s') ->
             fail_stop (let* o := run ch (FromSlash name) arg input in k o)).
  { intros k Hk Hp s Hs. unfold bind, run.
    set (inv := mkInv _ _ _ _). set (oc := run_child _ _ _ _ _).
    pose proof (Hk oc (after_child inv oc s)) as Hf. unfold same in Hf.
    destruct (o_err oc) as [e|] eqn:Eerr.
    - destruct (Hp oc (after_child inv oc s)) as (e' & s' & Ek); [congruence|].
      rewrite Ek in *. simpl in Hf. rewrite Hf. simpl.
      by rewrite removelast_last.
    - assert (all_ok (spawned (after_child inv oc s))).
      { simpl. apply Forall_app. split; [done|]. repeat constructor. done. }
      destruct (k oc _); simpl in Hf; rewrite Hf; auto using all_ok_removelast. }
  destruct (negb _).
  - apply fail_stop_bind;
      [apply fail_stop_steps; by apply steps_Print_same|intros _].
    apply Hrun.
    + intros oc. steps_tac. apply os_WriteFile_inv in H. by subst.
    + intros oc s Hne. destruct (o_err oc); [|done]. unfold panic. eauto.
  - apply Hrun.
    + intros oc. steps_tac. by apply steps_Print_same.
    + intros oc s Hne. unfold bind, Print, modify.
      destruct (o_err oc); [|done]. unfold panic. eauto.
Qed.

Lemma fail_stop_ret {A} (a : A) : fail_stop (ret a).
Proof. apply fail_stop_steps, steps_ret. Qed.

Lemma fail_stop_done_dep info fini d :
  dep_prop fail_stop d -> fail_stop (done_dep info fini d).
Proof.
  destruct d as [dep|name f|v]; simpl; intros Hd.
  - apply fail_stop_steps. steps_tac.
  - apply fail_stop_bind; [apply fail_stop_steps; steps_tac|intros cached].
    destruct cached.
    + apply fail_stop_steps. steps_tac. by apply steps_Print_same.
    + apply fail_stop_bind; [exact Hd|intros r].
      apply fail_stop_steps. steps_tac; [by apply steps_Print_same|done].
  - apply fail_stop_ret.
Qed.

Lemma fail_stop_done_loop info fini deps :
  Forall (dep_prop fail_stop) deps -> fail_stop (done_loop info fini deps).
Proof.
  intros H. revert fini. induction H as [|d rest Hd Hrest IH]; intros fini.
  - apply fail_stop_ret.
  - simpl. apply fail_stop_bind; [by apply fail_stop_done_dep | intros b; apply IH].
Qed.

Lemma fail_stop_done file deps :
  Forall (dep_prop fail_stop) deps -> fail_stop (done file deps).
Proof.
  intros H. unfold done. cbv zeta.
  apply fail_stop_bind; [apply fail_stop_steps; steps_tac|intros info].
  by apply fail_stop_done_loop.
Qed.

Lemma fail_stop_target file deps action :
  Forall (dep_prop fail_stop) deps -> fail_stop action ->
  fail_stop (target file deps action).
Proof.
  intros Hd Ha. unfold target.
  apply fail_stop_bind; [by apply fail_stop_done|intros [|]].
  - apply fail_stop_ret.
  - apply fail_stop_bind; [exact Ha | intros _; apply fail_stop_ret].
Qed.

Lemma fail_stop_scoped {A} dir (body : M A) :
  fail_stop body -> fail_stop (scoped dir body).
Proof.
  intros Hb. unfold scoped.
  apply fail_stop_bind; [apply fail_stop_steps; by apply chdir_same|intros wd].
  apply fail_stop_defer; [by apply chdir_same | exact Hb].
Qed.

Lemma fail_stop_delete file : fail_stop (delete_ file).
Proof. apply fail_stop_steps. by apply delete_same. Qed.

Lemma fail_stop_deleteFilesWithSuffix suffix :
  fail_stop (deleteFilesWithSuffix suffix).
Proof. apply fail_stop_steps. by apply deleteFilesWithSuffix_same. Qed.

(** ** The working directory is put back *)

Lemma restores_steps {A} (m : M A) : steps (same cwd) m -> restores m.
Proof.
  intros H s _. specialize (H s). unfold same in H.
  destruct (m s); simpl in H; auto.
Qed.

Lemma wd_ok_same s s' : cwd s' = cwd s -> wd_ok s -> wd_ok s'.
Proof. unfold wd_ok. intros ->. auto. Qed.

Lemma restores_bind {A B} (m : M A) (f : A -> M B) :
  restores m -> (forall a, restores (f a)) -> restores (bind m f).
Proof.
  intros Hm Hf s Hs. unfold bind. specialize (Hm s Hs).
  destruct (m s) as [a s1|e s1]; [|exact Hm].
  specialize (Hf a s1 (wd_ok_same _ _ Hm Hs)).
  destruct (f a s1); rewrite <- Hm; exact Hf.
Qed.

Lemma restores_ret {A} (a : A) : restores (ret a).
Proof. apply restores_steps, steps_ret. Qed.

Lemma restores_ext {A} (m m' : M A) :
  (forall s, m s = m' s) -> restores m' -> restores m.
Proof. intros E H s Hs. rewrite E. by apply H. Qed.

Lemma chdir_Ok dir s wd s' :
  chdir dir s = Ok wd s' ->
  wd = render (cwd s) /\
  s' = add_stdout ("cd " +:+ FromSlash dir +:+ nl)
                  (set_cwd (resolve (cwd s) (FromSlash dir)) s).
Proof.
  unfold chdir. unfold_m. unfold os_Getwd.
  destruct (lookup_node (fs s) (cwd s)) as [[|]|]; try discriminate.
  destruct (os_Chdir s (FromSlash dir)) eqn:E; [|discriminate].
  apply os_Chdir_inv in E. subst. intros [= <- <-]. auto.
Qed.

Lemma chdir_Panic dir s e s' :
  chdir dir s = Panic e s' -> s' = s /\ switch_err e.
Proof.
  unfold chdir. unfold_m. unfold os_Getwd.
  destruct (lookup_node (fs s) (cwd s)) as [[|]|];
    try (intros [= <- <-]; by split).
  destruct (os_Chdir s (FromSlash dir)); [discriminate|].
  intros [= <- <-]. by split.
Qed.

(** Back to the directory whose name [chdir] returned. *)
Lemma chdir_back s0 s :
  wd_ok s0 ->
  match chdir (render (cwd s0)) s with
  | Ok _ s' => cwd s' = cwd s0
  | Panic e s' => switch_err e
  end.
Proof.
  intros Hwd.
  destruct (chdir (render (cwd s0)) s) as [w s'|e s'] eqn:E.
  - apply chdir_Ok in E as [_ ->]. simpl. apply Hwd.
  - by apply chdir_Panic in E as [_ ?].
Qed.

Lemma restores_scoped {A} dir (body : M A) :
  steps (same cwd) body -> restores (scoped dir body).
Proof.
  intros Hb s Hs. unfold scoped, bind.
  destruct (chdir dir s) as [wd s1|e s1] eqn:E1.
  - apply chdir_Ok in E1 as [-> _]. unfold defer.
    destruct (body s1) as [a s2|e s2];
      (pose proof (chdir_back s s2 Hs) as H;
       destruct (chdir (render (cwd s)) s2); auto).
  - apply chdir_Panic in E1 as [-> _]. auto.
Qed.

Lemma restores_done_dep info fini d :
  dep_prop restores d -> restores (done_dep info fini d).
Proof.
  destruct d as [dep|name f|v]; simpl; intros Hd.
  - apply restores_steps. steps_tac.
  - apply restores_bind; [apply restores_steps; steps_tac|intros cached].
    destruct cached.
    + apply restores_steps. steps_tac. by apply steps_Print_same.
    + apply restores_bind; [exact Hd|intros r].
      apply restores_steps. steps_tac; [by apply steps_Print_same|done].
  - apply restores_ret.
Qed.

Lemma restores_done_loop info fini deps :
  Forall (dep_prop restores) deps -> restores (done_loop info fini deps).
Proof.
  intros H. revert fini. induction H as [|d rest Hd Hrest IH]; intros fini.
  - apply restores_ret.
  - simpl. apply restores_bind; [by apply restores_done_dep | intros b; apply IH].
Qed.

Lemma restores_done file deps :
  Forall (dep_prop restores) deps -> restores (done file deps).
Proof.
  intros H. unfold done. cbv zeta.
  apply restores_bind; [apply restores_steps; steps_tac|intros info].
  by apply restores_done_loop.
Qed.

Lemma restores_target file deps action :
  Forall (dep_prop restores) deps -> restores action ->
  restores (target file deps action).
Proof.
  intros Hd Ha. unfold target.
  apply restores_bind; [by apply restores_done|intros [|]].
  - apply restores_ret.
  - apply restores_bind; [exact Ha | intros _; apply restores_ret].
Qed.

(** ** At most once *)

Lemma append_cancel_r (a b c : string) : a +:+ c = b +:+ c -> a = b.
Proof.
  assert (L : forall x y, String.length (x +:+ y)
                          = (String.length x + String.length y)%nat).
  { induction x; simpl; intros; [reflexivity | by rewrite IHx]. }
  revert b. induction a as [|x a IH]; intros [|y b]; simpl; intros E.
  - reflexivity.
  - apply (f_equal String.length) in E. rewrite !L in E. simpl in E.
    rewrite ?L in E. lia.
  - apply (f_equal String.length) in E. rewrite !L in E. simpl in E.
    rewrite ?L in E. lia.
  - injection E as -> E. f_equal. by apply IH.
Qed.

Lemma spaceless_append a b : spaceless (a +:+ b) = spaceless a && spaceless b.
Proof. induction a; simpl; [reflexivity | by rewrite IHa, andb_assoc]. Qed.

Lemma names_spaceless n : In n target_names -> spaceless (n +:+ nl) = true.
Proof.
  simpl. intros H.
  repeat (destruct H as [<-|H]; [reflexivity|]). destruct H.
Qed.

Lemma names_m n : In n target_names -> ~ not_m (n +:+ nl).
Proof.
  simpl. intros H.
  repeat (destruct H as [<-|H]; [simpl; tauto|]). destruct H.
Qed.

Lemma is_done_foreign n n' :
  In n' target_names -> n +:+ " is done" +:+ nl <> n' +:+ nl.
Proof.
  intros H E. apply names_spaceless in H. rewrite <- E in H.
  rewrite spaceless_append in H. simpl in H.
  by rewrite andb_false_r in H.
Qed.

Lemma ran_wrote n s s' :
  wrote not_m s s' -> In n target_names -> ran n s' = ran n s.
Proof.
  intros (l & E & Hl) Hn. unfold ran. rewrite E, count_occ_app.
  rewrite (proj1 (count_occ_not_In string_dec l (n +:+ nl))); [lia|].
  intros Hin. rewrite Forall_forall in Hl.
  apply (names_m n Hn). apply Hl. by apply list_elem_of_In.
Qed.

Lemma ran_add_other n x s :
  x <> n +:+ nl -> ran n (add_stdout x s) = ran n s.
Proof.
  intros Hx. unfold ran. simpl. rewrite count_occ_app. simpl.
  destruct (string_dec x (n +:+ nl)); [contradiction | lia].
Qed.

Lemma ran_add_same n s : ran n (add_stdout (n +:+ nl) s) = S (ran n s).
Proof.
  unfold ran. simpl. rewrite count_occ_app. simpl.
  destruct (string_dec (n +:+ nl) (n +:+ nl)); [lia | contradiction].
Qed.

Lemma ran_set_processed n p s : ran n (set_processed p s) = ran n s.
Proof. reflexivity. Qed.

#[global] Instance cache_grows_preorder : PreOrder cache_grows.
Proof. split; unfold cache_grows; [intros s; auto | intros s1 s2 s3; auto]. Qed.

Lemma once_steps {A} F (m : M A) :
  steps (same processed) m -> steps (wrote not_m) m -> once F m.
Proof.
  intros Hp Hw s HI. specialize (Hp s). specialize (Hw s). unfold same in Hp.
  split; [|split].
  - intros n Hn. rewrite (ran_wrote n _ _ Hw Hn), Hp. by apply HI.
  - intros n. by rewrite Hp.
  - intros n Hn _. by apply ran_wrote.
Qed.

Lemma once_ret {A} F (a : A) : once F (ret a).
Proof. apply once_steps; apply steps_ret. Qed.

Lemma once_bind {A B} F (m : M A) (f : A -> M B) :
  once F m -> (forall a, once F (f a)) -> once F (bind m f).
Proof.
  intros Hm Hf s HI. unfold bind. destruct (Hm s HI) as (I1 & G1 & R1).
  destruct (m s) as [a s1|e s1]; simpl in *; [|auto].
  destruct (Hf a s1 I1) as (I2 & G2 & R2).
  split; [exact I2|split].
  - etransitivity; eauto.
  - intros n Hn HF. rewrite R2, R1; auto.
Qed.

Lemma once_weaken {A} F F' (m : M A) : incl F F' -> once F m -> once F' m.
Proof.
  intros Hi Hm s HI. destruct (Hm s HI) as (I1 & G1 & R1).
  split; [exact I1|split; [exact G1|]].
  intros n Hn HF. apply R1; auto.
Qed.

Lemma once_ext {A} F (m m' : M A) :
  (forall s, m s = m' s) -> once F m' -> once F m.
Proof. intros E H s Hs. rewrite E. by apply H. Qed.

Lemma once_done_dep F info fini d :
  dep_once F d -> once F (done_dep info fini d).
Proof.
  destruct d as [dep|name f|v]; simpl.
  - intros _. apply once_steps; steps_tac.
  - intros (F' & Hf & Hincl & HnF & HnF') s HI. unfold bind, gets.
    destruct (processed s !! name) as [r|] eqn:Ec; simpl.
    + split; [|split].
      * intros n Hn. rewrite ran_add_other by (by apply is_done_foreign).
        by apply HI.
      * intros n. auto.
      * intros n Hn _. by apply ran_add_other, is_done_foreign.
    + destruct (Hf s HI) as (I1 & G1 & R1).
      destruct (f s) as [r s1|e s1]; cbn [final_state] in *.
      * change (Print (name +:+ nl) s1) with (Ok tt (add_stdout (name +:+ nl) s1)).
        cbn [final_state modify].
        set (s2 := add_stdout (name +:+ nl) s1).
        change (final_state _) with (set_processed (<[name:=r]> (processed s1)) s2).
        split; [|split].
        -- intros n Hn. rewrite ran_set_processed. subst s2.
           change (processed (set_processed ?p _)) with p.
           destruct (string_dec n name) as [->|Hne].
           ++ rewrite ran_add_same, (R1 name Hn HnF').
              destruct (HI name Hn) as [Hle Hc].
              assert (ran name s = 0%nat) as ->.
              { destruct (ran name s) as [|[|k]]; [done| |lia].
                destruct Hc as [? Hc]; [done|]. congruence. }
              split; [lia|]. intros _. by rewrite lookup_insert_eq.
           ++ rewrite ran_add_other
                by (intros E; apply append_cancel_r in E; congruence).
              destruct (I1 n Hn) as [Hle Hc]. split; [done|].
              intros H1. rewrite lookup_insert_ne by congruence. auto.
        -- intros n Hn. change (processed (set_processed ?p _)) with p.
           destruct (string_dec name n) as [->|Hne].
           ++ by rewrite lookup_insert_eq.
           ++ rewrite lookup_insert_ne by done. auto.
        -- intros n Hn HF. rewrite ran_set_processed. subst s2.
           rewrite ran_add_other
             by (intros E; apply append_cancel_r in E; congruence).
           apply R1; auto.
      * split; [done|split; [done|]]. intros n Hn HF. apply R1; auto.
  - intros _. apply once_ret.
Qed.

Lemma once_done_loop F info fini deps :
  Forall (dep_once F) deps -> once F (done_loop info fini deps).
Proof.
  intros H. revert fini. induction H as [|d rest Hd Hrest IH]; intros fini.
  - apply once_ret.
  - simpl. apply once_bind; [by apply once_done_dep | intros b; apply IH].
Qed.

Lemma once_done F file deps :
  Forall (dep_once F) deps -> once F (done file deps).
Proof.
  intros H. unfold done. cbv zeta.
  apply once_bind; [apply once_steps; steps_tac|intros info].
  by apply once_done_loop.
Qed.

Lemma once_target F file deps action :
  Forall (dep_once F) deps ->
  steps (same processed) action -> steps (wrote not_m) action ->
  once F (target file deps action).
Proof.
  intros Hd Hp Hw. unfold target.
  apply once_bind; [by apply once_done|intros [|]].
  - apply once_ret.
  - apply once_bind; [by apply once_steps | intros _; apply once_ret].
Qed.

(** ** A target that reports true has done nothing *)

Lemma quiet_done_dep info fini d s s' :
  dep_prop quiet_if_true d ->
  done_dep info fini d s = Ok true s' -> fini = true /\ world s' = world s.
Proof.
  destruct d as [dep|name f|v]; simpl; unfold_m.
  - intros _. destruct info as [info|]; [|discriminate].
    destruct (os_Stat s (FromSlash dep)); [|discriminate].
    destruct (After _ _); cbv beta; [discriminate|]. by intros [= -> <-].
  - intros Hq. destruct (processed s !! name) as [r|].
    + intros [= E <-]. apply andb_true_iff in E as [-> _]. done.
    + destruct (f s) as [r s1|] eqn:Ef; [|discriminate].
      intros [= E <-]. apply andb_true_iff in E as [-> ->].
      split; [done|]. apply Hq in Ef. exact Ef.
  - intros _ [= -> <-]. done.
Qed.

Lemma quiet_done_loop info fini deps s s' :
  Forall (dep_prop quiet_if_true) deps ->
  done_loop info fini deps s = Ok true s' -> world s' = world s.
Proof.
  intros H. revert fini s. induction H as [|d rest Hd Hrest IH]; intros fini s.
  - simpl. unfold ret. by intros [= _ <-].
  - rewrite done_loop_cons.
    destruct (done_dep info fini d s) as [b s1|] eqn:E; [|discriminate].
    intros Hl. destruct b.
    + apply quiet_done_dep in E as [_ <-]; [|done]. by eapply IH.
    + by apply done_loop_false in Hl.
Qed.

Lemma quiet_done file deps :
  Forall (dep_prop quiet_if_true) deps -> quiet_if_true (done file deps).
Proof. intros H s s'. rewrite done_unfold. by apply quiet_done_loop. Qed.

Lemma target_true file deps action s s' :
  target file deps action s = Ok true s' -> done file deps s = Ok true s'.
Proof.
  unfold target, bind, ret. destruct (done file deps s) as [[|] s1|]; try done.
  destruct (action s1); discriminate.
Qed.

Lemma target_false file deps action s s' :
  target file deps action s = Ok false s' ->
  exists s1, done file deps s = Ok false s1 /\ action s1 = Ok tt s'.
Proof.
  unfold target, bind, ret. destruct (done file deps s) as [[|] s1|]; try done.
  destruct (action s1) as [[] s2|] eqn:E; [|discriminate].
  intros [= <-]. eauto.
Qed.

Lemma quiet_target file deps action :
  Forall (dep_prop quiet_if_true) deps ->
  quiet_if_true (target file deps action).
Proof.
  intros H s s' E. apply target_true in E. by apply quiet_done in E.
Qed.

Lemma quiet_ext (m m' : M bool) :
  (forall s, m s = m' s) -> quiet_if_true m' -> quiet_if_true m.
Proof. intros E H s s'. rewrite E. apply H. Qed.

(** ** What an action starts *)

Lemma spawns_steps {A} (m : M A) : steps (same spawned) m -> spawns [] m.
Proof.
  intros H s a s' E. apply (steps_Ok _ _ _ _ _ H) in E. unfold same in E.
  exists []. rewrite E, app_nil_r. repeat split. constructor.
Qed.

Lemma spawns_bind {A B} c1 c2 c (m : M A) (f : A -> M B) :
  spawns c1 m -> (forall a, spawns c2 (f a)) -> c = c1 ++ c2 ->
  spawns c (bind m f).
Proof.
  intros Hm Hf -> s b s' E. apply bind_Ok in E as (a & s1 & E1 & E2).
  apply Hm in E1 as (l1 & S1 & M1 & O1). apply Hf in E2 as (l2 & S2 & M2 & O2).
  exists (l1 ++ l2). rewrite S2, S1, <- app_assoc, map_app, M1, M2.
  repeat split. by apply Forall_app.
Qed.

Lemma spawns_defer {A B} c (d : M B) (body : M A) :
  steps (same spawned) d -> spawns c body -> spawns c (defer d body).
Proof.
  intros Hd Hb s a s' E. unfold defer in E.
  destruct (body s) as [a1 s1|e s1] eqn:Eb.
  - destruct (d s1) as [x s2|] eqn:Ed; [|discriminate]. injection E as <- <-.
    apply (steps_Ok _ _ _ _ _ Hd) in Ed. unfold same in Ed. rewrite Ed.
    by eapply Hb.
  - destruct (d s1); discriminate.
Qed.

Lemma spawns_scoped {A} c dir (body : M A) :
  spawns c body -> spawns c (scoped dir body).
Proof.
  intros Hb. unfold scoped.
  eapply spawns_bind; [apply spawns_steps; by apply chdir_same| |reflexivity].
  intros wd. apply spawns_defer; [by apply chdir_same | exact Hb].
Qed.

Lemma spawns_command name i o arg :
  spawns [(FromSlash name, arg)] (command ch name i o arg).
Proof.
  unfold command. cbv zeta.
  eapply spawns_bind;
    [apply spawns_steps; steps_tac; by apply steps_Print_same| |reflexivity].
  intros _.
  eapply spawns_bind;
    [apply spawns_steps; steps_tac; by apply steps_Print_same| |reflexivity].
  intros _.
  eapply spawns_bind;
    [apply spawns_steps; steps_tac; by apply steps_Print_same| |reflexivity].
  intros input.
  assert (Hrun : forall k : Outcome -> M unit,
             (forall o, steps (same spawned) (k o)) ->
             (forall o s a s', k o s = Ok a s' -> o_err o = None) ->
             spawns [(FromSlash name, arg)]
                    (let* o := run ch (FromSlash name) arg input in k o)).
  { intros k Hk Hp s a s' E. unfold bind, run in E.
    set (inv := mkInv _ _ _ _) in E. set (oc := run_child _ _ _ _ _) in E.
    pose proof (Hp _ _ _ _ E) as Herr.
    apply (steps_Ok _ _ _ _ _ (Hk oc)) in E. unfold same in E. simpl in E.
    exists [(inv, o_err oc)]. rewrite E. repeat split.
    repeat constructor. exact Herr. }
  destruct (negb _).
  - eapply spawns_bind;
      [apply spawns_steps; by apply steps_Print_same| |reflexivity].
    intros _. apply Hrun.
    + intros oc. steps_tac. apply os_WriteFile_inv in H. by subst.
    + intros oc s a s'. by destruct (o_err oc).
  - apply Hrun.
    + intros oc. steps_tac. by apply steps_Print_same.
    + intros oc s a s'. unfold bind, Print, modify.
      by destruct (o_err oc).
Qed.

(** ** Every target function has the shape *)

Lemma seq3_ret {C} (a b c : M unit) (x : C) s :
  (a;; b;; c;; ret x) s = ((a;; b;; c);; ret x) s.
Proof.
  unfold bind. destruct (a s) as [[] s1|]; [|reflexivity].
  destruct (b s1) as [[] s2|]; [|reflexivity]. reflexivity.
Qed.

Lemma defer_ext {A B} (d : M B) (body body' : M A) s :
  (forall s, body s = body' s) -> defer d body s = defer d body' s.
Proof. intros E. unfold defer. by rewrite E. Qed.

Lemma scoped_ext {A} dir (body body' : M A) s :
  (forall s, body s = body' s) -> scoped dir body s = scoped dir body' s.
Proof.
  intros E. unfold scoped, bind. destruct (chdir dir s); [|reflexivity].
  by apply defer_ext.
Qed.

Lemma target_shape file deps (act : M unit) (rest : M bool) s :
  (forall s, rest s = (act;; ret false) s) ->
  (let* b := done file deps in if b then ret true else rest) s
  = target file deps act s.
Proof.
  intros E. unfold target, bind at 1 2.
  destruct (done file deps s) as [[|] s1|]; auto.
Qed.

Lemma scoped1_shape {C} dir (a : M unit) (x : C) s :
  scoped dir (a;; ret x) s = (scoped dir a;; ret x) s.
Proof. apply scoped_ret. Qed.

Lemma scoped3_shape {C} dir (a b c : M unit) (x : C) s :
  scoped dir (a;; b;; c;; ret x) s = (scoped dir (a;; b;; c);; ret x) s.
Proof.
  rewrite <- scoped_ret. apply scoped_ext. intros s'. apply seq3_ret.
Qed.

Lemma rows_shape r :
  In r (rows ch) ->
  forall s, row_fn r s = target (row_file r) (row_deps r) (row_action r) s.
Proof.
  simpl. intros H s.
  repeat (destruct H as [<-|H];
          [ cbn [row_fn row_file row_deps row_action];
            apply target_shape; intros s';
            first [ apply scoped3_shape | apply scoped1_shape
                  | apply seq3_ret | reflexivity ] |]).
  destruct H.
Qed.

(** ** Every target is well behaved *)

Lemma good_dep_prop F (P : M bool -> Prop) deps :
  (forall F' f, good_target F' f -> P f) ->
  Forall (good_dep F) deps -> Forall (dep_prop P) deps.
Proof.
  intros HP H. eapply Forall_impl; [exact H|].
  intros [dep|n f|v]; simpl; auto.
  intros (F' & Hg & _). eauto.
Qed.

Lemma good_dep_once F deps :
  Forall (good_dep F) deps -> Forall (dep_once F) deps.
Proof.
  intros H. eapply Forall_impl; [exact H|].
  intros [dep|n f|v]; simpl; auto.
  intros (F' & Hg & Hi & Hn & Hn'). exists F'. split; [apply Hg|auto].
Qed.

Lemma good_target_intro F t file deps action cmds :
  (forall s, t s = target file deps action s) ->
  Forall (good_dep F) deps -> good_action cmds action -> good_target F t.
Proof.
  intros E Hd Ha. split.
  - eapply fail_stop_ext; [exact E|]. apply fail_stop_target; [|apply Ha].
    eapply good_dep_prop; [|exact Hd]. intros F' f Hg. apply Hg.
  - eapply restores_ext; [exact E|]. apply restores_target; [|apply Ha].
    eapply good_dep_prop; [|exact Hd]. intros F' f Hg. apply Hg.
  - eapply once_ext; [exact E|].
    apply once_target; [by apply good_dep_once|apply Ha|apply Ha].
  - eapply quiet_ext; [exact E|]. apply quiet_target.
    eapply good_dep_prop; [|exact Hd]. intros F' f Hg. apply Hg.
Qed.

Ltac frame_tac :=
  unfold stage, grammar, scoped; steps_tac;
  first [ apply chdir_same | apply command_same | apply delete_same
        | apply deleteFilesWithSuffix_same
        | apply chdir_wrote | apply command_wrote | apply delete_wrote
        | apply deleteFilesWithSuffix_wrote ];
  try done; try exact I.

Ltac stop_tac :=
  unfold stage, grammar;
  repeat match goal with
    | |- fail_stop (scoped _ _) => apply fail_stop_scoped
    | |- fail_stop (bind (chdir ?d) _) => apply (fail_stop_scoped d)
    | |- fail_stop (command _ _ _ _ _) => apply fail_stop_command
    | |- fail_stop (deleteFilesWithSuffix _) =>
        apply fail_stop_deleteFilesWithSuffix
    | |- fail_stop (delete_ _) => apply fail_stop_delete
    | |- fail_stop (ret _) => apply fail_stop_ret
    | |- fail_stop (bind _ _) => apply fail_stop_bind; [|intros ?]
    end.

Lemma good_scoped cmds dir (body : M unit) :
  fail_stop body -> steps (same cwd) body -> steps (same processed) body ->
  steps (wrote not_m) body -> spawns cmds body ->
  good_action cmds (scoped dir body).
Proof.
  intros H1 H2 H3 H4 H5. split.
  - by apply fail_stop_scoped.
  - by apply restores_scoped.
  - unfold scoped. steps_tac; try done; by apply chdir_same.
  - unfold scoped. steps_tac; try done; by apply chdir_wrote.
  - by apply spawns_scoped.
Qed.

Lemma good_plain cmds (body : M unit) :
  fail_stop body -> steps (same cwd) body -> steps (same processed) body ->
  steps (wrote not_m) body -> spawns cmds body ->
  good_action cmds body.
Proof. intros H1 H2 H3 H4 H5. split; auto using restores_steps. Qed.

Lemma good_command name i o arg :
  not_m (FromSlash name) ->
  good_action [(FromSlash name, arg)] (command ch name i o arg).
Proof.
  intros Hn. apply good_plain.
  - apply fail_stop_command.
  - by apply command_same.
  - by apply command_same.
  - by apply command_wrote.
  - apply spawns_command.
Qed.

Lemma stage_good gen input out bin :
  not_m (FromSlash gen) ->
  good_action [(FromSlash gen, []);
               ("go", ["build"; "-tags"; "bootstrap"; "-o"; bin])]
              (stage ch gen input out bin).
Proof.
  intros Hn. unfold stage. apply good_scoped.
  - stop_tac.
  - frame_tac.
  - frame_tac.
  - frame_tac.
  - eapply spawns_bind;
      [apply spawns_steps; by apply deleteFilesWithSuffix_same| |reflexivity].
    intros _. eapply spawns_bind; [apply spawns_command| |reflexivity].
    intros _. apply spawns_command.
Qed.

Lemma grammar_good dir file :
  good_action [("../../peg", ["-switch"; "-inline"; file])]
              (grammar ch dir file).
Proof.
  unfold grammar. apply good_scoped.
  - apply fail_stop_command.
  - by apply command_same.
  - by apply command_same.
  - by apply command_wrote.
  - apply spawns_command.
Qed.

Ltac shape_tac :=
  intros ?; apply target_shape; intros ?;
  first [ apply scoped3_shape | apply scoped1_shape | apply seq3_ret
        | reflexivity ].

Ltac list_tac :=
  unfold below_test, below_grammar, below_peg, incl; simpl;
  intuition (try discriminate).

Ltac dep_tac lem :=
  first [ exact I
        | eexists; split; [apply lem | split; [|split]]; list_tac ].

Lemma bootstrap_good : good_target [] (bootstrap ch).
Proof.
  eapply good_target_intro; [shape_tac | |].
  - repeat constructor.
  - apply good_scoped; [stop_tac|frame_tac..|apply spawns_command].
Qed.

Lemma peg0_good : good_target ["main.bootstrap"] (peg0 ch).
Proof.
  eapply good_target_intro; [shape_tac | |].
  - repeat (apply List.Forall_cons; [dep_tac bootstrap_good|]). constructor.
  - by apply stage_good.
Qed.

Lemma peg1_good : good_target ["main.peg0"; "main.bootstrap"] (peg1 ch).
Proof.
  eapply good_target_intro; [shape_tac | |].
  - repeat (apply List.Forall_cons; [dep_tac peg0_good|]). constructor.
  - by apply stage_good.
Qed.

Lemma peg2_good :
  good_target ["main.peg1"; "main.peg0"; "main.bootstrap"] (peg2 ch).
Proof.
  eapply good_target_intro; [shape_tac | |].
  - repeat (apply List.Forall_cons; [dep_tac peg1_good|]). constructor.
  - by apply stage_good.
Qed.

Lemma peg3_good :
  good_target ["main.peg2"; "main.peg1"; "main.peg0"; "main.bootstrap"]
              (peg3 ch).
Proof.
  eapply good_target_intro; [shape_tac | |].
  - repeat (apply List.Forall_cons; [dep_tac peg2_good|]). constructor.
  - by apply stage_good.
Qed.

Lemma peg_bootstrap_good :
  good_target ["main.peg3"; "main.peg2"; "main.peg1"; "main.peg0";
               "main.bootstrap"] (peg_bootstrap ch).
Proof.
  eapply good_target_intro; [shape_tac | |].
  - repeat (apply List.Forall_cons; [dep_tac peg3_good|]). constructor.
  - by apply stage_good.
Qed.

Lemma peg_peg_go_good :
  good_target ["main.peg_bootstrap"; "main.peg3"; "main.peg2"; "main.peg1";
               "main.peg0"; "main.bootstrap"] (peg_peg_go ch).
Proof.
  eapply good_target_intro; [shape_tac | |].
  - repeat (apply List.Forall_cons; [dep_tac peg_bootstrap_good|]). constructor.
  - apply good_plain; [stop_tac|frame_tac..|].
    eapply spawns_bind; [apply spawns_command| |reflexivity].
    intros _. eapply spawns_bind; [apply spawns_command| |reflexivity].
    intros _. apply spawns_command.
Qed.

Lemma peg_good : good_target below_peg (peg ch).
Proof.
  eapply good_target_intro; [shape_tac | |].
  - repeat (apply List.Forall_cons; [dep_tac peg_peg_go_good|]). constructor.
  - by apply good_command.
Qed.

Lemma grammars_c_good : good_target below_grammar (grammars_c ch).
Proof.
  eapply good_target_intro; [shape_tac | | apply grammar_good].
  repeat (apply List.Forall_cons; [dep_tac peg_good|]). constructor.
Qed.

Lemma grammars_calculator_good :
  good_target below_grammar (grammars_calculator ch).
Proof.
  eapply good_target_intro; [shape_tac | | apply grammar_good].
  repeat (apply List.Forall_cons; [dep_tac peg_good|]). constructor.
Qed.

Lemma grammars_calculator_ast_good :
  good_target below_grammar (grammars_calculator_ast ch).
Proof.
  eapply good_target_intro; [shape_tac | | apply grammar_good].
  repeat (apply List.Forall_cons; [dep_tac peg_good|]). constructor.
Qed.

Lemma grammars_fexl_good : good_target below_grammar (grammars_fexl ch).
Proof.
  eapply good_target_intro; [shape_tac | | apply grammar_good].
  repeat (apply List.Forall_cons; [dep_tac peg_good|]). constructor.
Qed.

Lemma grammars_java_good : good_target below_grammar (grammars_java ch).
Proof.
  eapply good_target_intro; [shape_tac | | apply grammar_good].
  repeat (apply List.Forall_cons; [dep_tac peg_good|]). constructor.
Qed.

Lemma grammars_long_test_good :
  good_target below_grammar (grammars_long_test ch).
Proof.
  eapply good_target_intro; [shape_tac | | apply grammar_good].
  repeat (apply List.Forall_cons; [dep_tac peg_good|]). constructor.
Qed.

Lemma test_good : good_target below_test (test ch).
Proof.
  eapply good_target_intro; [shape_tac | | by apply good_command].
  apply List.Forall_cons; [dep_tac grammars_c_good|].
  apply List.Forall_cons; [dep_tac grammars_calculator_good|].
  apply List.Forall_cons; [dep_tac grammars_calculator_ast_good|].
  apply List.Forall_cons; [dep_tac grammars_fexl_good|].
  apply List.Forall_cons; [dep_tac grammars_java_good|].
  apply List.Forall_cons; [dep_tac grammars_long_test_good|].
  constructor.
Qed.

(** ** The claims about [done] and about the targets *)

(** C10. A dependency that is neither a string nor a [func() bool] is
    skipped: [done] behaves as if it had not been passed. *)
Theorem C10_other_dependencies_ignored file deps s :
  done file deps s
  = done file (List.filter (fun d => negb (is_other d)) deps) s.
Proof.
  rewrite !done_unfold. generalize (os_Stat s (FromSlash file)). intros info.
  generalize (match info with Some _ => true | None => false end).
  intros fini. revert fini s.
  induction deps as [|d rest IH]; intros fini s; [reflexivity|].
  destruct d as [dep|name f|v]; simpl List.filter.
  - rewrite !done_loop_cons. destruct (done_dep _ _ _ _); auto.
  - rewrite !done_loop_cons. destruct (done_dep _ _ _ _); auto.
  - rewrite done_loop_cons. simpl. unfold ret. apply IH.
Qed.

Lemma done_empty_output deps s b s' : done "" deps s = Ok b s' -> b = false.
Proof. rewrite done_unfold. simpl. apply done_loop_false. Qed.

Lemma rows_action_good r :
  In r (rows ch) -> good_action (row_cmds r) (row_action r) /\ row_cmds r <> [].
Proof.
  simpl. intros Hr.
  repeat (destruct Hr as [<-|Hr];
          [split; [cbn [row_cmds row_action];
                   first [ by apply stage_good | apply grammar_good
                         | by apply good_command | idtac ]
                  | discriminate] |]); [..|destruct Hr].
  - apply good_scoped; [stop_tac|frame_tac..|apply spawns_command].
  - apply good_plain; [stop_tac|frame_tac..|].
    eapply spawns_bind; [apply spawns_command| |reflexivity].
    intros _. eapply spawns_bind; [apply spawns_command| |reflexivity].
    intros _. apply spawns_command.
Qed.

Lemma row_runs r s :
  In r (rows ch) ->
  match row_fn r s with
  | Ok true s' => done (row_file r) (row_deps r) s = Ok true s'
  | Ok false s' =>
      exists s1 l,
        done (row_file r) (row_deps r) s = Ok false s1
        /\ row_action r s1 = Ok tt s'
        /\ spawned s' = spawned s1 ++ l
        /\ List.map sig l = row_cmds r /\ l <> [] /\ all_ok l
  | Panic _ _ => True
  end.
Proof.
  intros Hr. rewrite (rows_shape r Hr).
  destruct (target _ _ _ s) as [[|] s'|] eqn:E; [| |exact I].
  - by apply target_true in E.
  - apply target_false in E as (s1 & Ed & Ea).
    destruct (rows_action_good r Hr) as [Hg Hne].
    destruct (ga_spawns _ _ Hg _ _ _ Ea) as (l & Hl & Hm & Hok).
    exists s1, l. repeat split; auto.
    intros ->. simpl in Hm. congruence.
Qed.

(** C2. A target function that returns true has left the state as its call
    of [done] left it: its action was not run.  One that returns false has
    run its action to the end after [done] reported false: the commands of
    the action, and only they, were started after [done], none failed. *)
Theorem C2_returns_true_iff_action_not_run r s :
  In r (rows ch) ->
  match row_fn r s with
  | Ok true s' => done (row_file r) (row_deps r) s = Ok true s'
  | Ok false s' =>
      exists s1 l,
        done (row_file r) (row_deps r) s = Ok false s1
        /\ row_action r s1 = Ok tt s'
        /\ spawned s' = spawned s1 ++ l
        /\ List.map sig l = row_cmds r /\ l <> [] /\ all_ok l
  | Panic _ _ => True
  end.
Proof. apply row_runs. Qed.

(** C3, as the code has it.  The output path of [test] is empty, [os.Stat]
    fails on it, and [done] reports false whatever the dependencies
    report: when [test] returns it returns false and its last act was to
    run [go test]. *)
Theorem C3_test_always_runs_its_action s b s' :
  test ch s = Ok b s' ->
  b = false
  /\ exists inv l,
       spawned s' = l ++ [(inv, None)]
       /\ i_name inv = "go"
       /\ i_args inv = ["test"; "-short"; "-tags"; "grammars"; "./..."].
Proof.
  intros E.
  assert (Hr : In (List.last (rows ch) (mkRow "" (ret true) "" [] (ret tt) []))
                  (rows ch)).
  { simpl. do 14 right. by left. }
  pose proof (row_runs _ s Hr) as H.
  cbn [List.last rows row_fn row_file row_deps row_action row_cmds] in H.
  rewrite E in H. destruct b.
  - by apply done_empty_output in H.
  - split; [done|]. destruct H as (s1 & l & _ & _ & Hs & Hm & _ & Hok).
    destruct l as [|[inv e] [|? ?]]; try discriminate.
    apply Forall_inv in Hok. simpl in Hok. subst e.
    injection Hm as Hn Ha. exists inv, (spawned s1). auto.
Qed.

(** C5, as the code has it.  When the output is there, a file dependency
    that cannot be statted when its turn comes makes [done] panic; when
    the output is missing, file dependencies are not looked at, and
    [done] behaves as if they had not been passed. *)
Theorem C5_stat_failure_fatal_when_output_exists file pre dep post s :
  match os_Stat s (FromSlash file) with
  | Some info =>
      forall fini s1,
        done_loop (Some info) true pre s = Ok fini s1 ->
        os_Stat s1 (FromSlash dep) = None ->
        done file (pre ++ DString dep :: post) s
        = Panic (PathError "stat" (FromSlash dep)) s1
  | None =>
      done file (pre ++ DString dep :: post) s = done file (pre ++ post) s
  end.
Proof.
  destruct (os_Stat s (FromSlash file)) as [info|] eqn:Es.
  - intros fini s1 Hpre Hstat. rewrite done_unfold, Es, done_loop_app, Hpre.
    rewrite done_loop_cons. simpl. unfold_m. by rewrite Hstat.
  - rewrite !done_unfold, Es, !done_loop_app.
    destruct (done_loop None false pre s) as [b s1|] eqn:E; [|reflexivity].
    apply done_loop_false in E. subst b. reflexivity.
Qed.

(** ** [clean], [bench], and all the functions together *)

Lemma defer_Ok {A B} (d : M B) (body : M A) s a s' :
  defer d body s = Ok a s' -> exists s1, body s = Ok a s1.
Proof.
  unfold defer. destruct (body s) as [a1 s1|]; destruct (d _); try discriminate.
  intros [= <- <-]. eauto.
Qed.

Lemma never_true_ret : never_true (ret false).
Proof. intros s s'. unfold ret. discriminate. Qed.

Lemma never_true_bind {A} (m : M A) (f : A -> M bool) :
  (forall a, never_true (f a)) -> never_true (bind m f).
Proof.
  intros H s s'. unfold bind. destruct (m s); [apply H | discriminate].
Qed.

Lemma never_true_defer {B} (d : M B) (body : M bool) :
  never_true body -> never_true (defer d body).
Proof.
  intros H s s' E. apply defer_Ok in E as [s1 E]. by apply H in E.
Qed.

Lemma never_true_quiet (m : M bool) : never_true m -> quiet_if_true m.
Proof. intros H s s' E. by apply H in E. Qed.

Ltac never_tac :=
  repeat match goal with
    | |- never_true (ret false) => apply never_true_ret
    | |- never_true (bind _ _) => apply never_true_bind; intros ?
    | |- never_true (defer _ _) => apply never_true_defer
    end.

Ltac rest_tac :=
  repeat match goal with
    | |- restores (scoped _ _) => apply restores_scoped; frame_tac
    | |- restores (bind (chdir ?d) _) => apply (restores_scoped d); frame_tac
    | |- restores (delete_ _) => apply restores_steps; by apply delete_same
    | |- restores (command _ _ _ _ _) =>
        apply restores_steps; by apply command_same
    | |- restores (ret _) => apply restores_ret
    | |- restores (bind _ _) => apply restores_bind; [|intros ?]
    end.

Lemma clean_good : good_target [] clean.
Proof.
  split.
  - unfold clean. stop_tac.
  - unfold clean. rest_tac.
  - apply once_steps; unfold clean; frame_tac.
  - apply never_true_quiet. unfold clean. never_tac.
Qed.

Lemma bench_good : good_target below_peg (bench ch).
Proof.
  pose proof peg_good as Hp. split.
  - unfold bench. apply fail_stop_bind; [apply Hp|intros _]. stop_tac.
  - unfold bench. apply restores_bind; [apply Hp|intros _]. rest_tac.
  - unfold bench. apply once_bind; [apply Hp|intros _].
    apply once_steps; frame_tac.
  - apply never_true_quiet. unfold bench. never_tac.
Qed.

Lemma functions_good t :
  In t (functions ch) -> exists F, good_target F t.
Proof.
  unfold functions. cbn [rows List.map row_fn app In]. intros H.
  destruct H as [<-|H]; [eexists; apply bootstrap_good|].
  destruct H as [<-|H]; [eexists; apply peg0_good|].
  destruct H as [<-|H]; [eexists; apply peg1_good|].
  destruct H as [<-|H]; [eexists; apply peg2_good|].
  destruct H as [<-|H]; [eexists; apply peg3_good|].
  destruct H as [<-|H]; [eexists; apply peg_bootstrap_good|].
  destruct H as [<-|H]; [eexists; apply peg_peg_go_good|].
  destruct H as [<-|H]; [eexists; apply peg_good|].
  destruct H as [<-|H]; [eexists; apply grammars_c_good|].
  destruct H as [<-|H]; [eexists; apply grammars_calculator_good|].
  destruct H as [<-|H]; [eexists; apply grammars_calculator_ast_good|].
  destruct H as [<-|H]; [eexists; apply grammars_fexl_good|].
  destruct H as [<-|H]; [eexists; apply grammars_java_good|].
  destruct H as [<-|H]; [eexists; apply grammars_long_test_good|].
  destruct H as [<-|H]; [eexists; apply test_good|].
  destruct H as [<-|H]; [eexists; apply clean_good|].
  destruct H as [<-|H]; [eexists; apply bench_good|].
  destruct H.
Qed.

Lemma Inv_initial s : stdout s = [] -> Inv s.
Proof. intros E n _. unfold ran. rewrite E. simpl. split; [lia|discriminate]. Qed.

(** C6. A target found in the cache is not run: [done] prints that it is
    done and folds the cached result in, whatever the function is.  A
    target not in the cache is run, its result stored under its name and
    folded in.  And in a run of any function of the program, from the
    start of a process (nothing printed yet), [done] sees no target return
    twice. *)
Theorem C6_target_run_at_most_once :
  (forall info fini name f s r,
      processed s !! name = Some r ->
      done_dep info fini (DFunc name f) s
      = Ok (fini && r) (note_done name s))
  /\ (forall info fini name f s,
        processed s !! name = None ->
        done_dep info fini (DFunc name f) s
        = match f s with
          | Ok r s1 => Ok (fini && r) (note_evaluated name r s1)
          | Panic e s1 => Panic e s1
          end)
  /\ (forall t s n,
        In t (functions ch) -> stdout s = [] -> In n target_names ->
        (ran n (final_state (t s)) <= 1)%nat).
Proof.
  split; [|split].
  - intros info fini name f s r E. simpl. unfold_m. by rewrite E.
  - intros info fini name f s E. simpl. unfold_m. rewrite E.
    by destruct (f s).
  - intros t s n Ht Hs Hn. destruct (functions_good t Ht) as [F Hg].
    destruct (gt_once _ _ Hg s (Inv_initial s Hs)) as (HI & _).
    by apply HI.
Qed.



(** ** Staleness goes up the chain *)


Lemma files_only_loop info fini pre s :
  files_only pre ->
  match done_loop info fini pre s with
  | Ok _ s' => s' = s
  | Panic _ s' => s' = s
  end.
Proof.
  intros H. revert fini. induction H as [|d pre Hd Hpre IH]; intros fini.
  - reflexivity.
  - rewrite done_loop_cons. destruct d as [dep|n f|v]; [|destruct Hd|].
    + simpl. unfold_m. destruct info as [info|]; [|apply IH].
      destruct (os_Stat s (FromSlash dep)); [|reflexivity].
      destruct (After _ _); apply IH.
    + simpl. unfold ret. apply IH.
Qed.





(** ** [delete], [deleteFilesWithSuffix] and [clean] *)

#[global] Instance tidy_preorder : PreOrder tidy.
Proof.
  split.
  - intros s. by repeat split.
  - intros s1 s2 s3 (A1 & A2 & A3 & A4) (B1 & B2 & B3 & B4).
    repeat split; try congruence. by etransitivity.
Qed.



Lemma os_Remove_tidy s name :
  tidy s (match os_Remove s name with Some s' => s' | None => s end).
Proof.
  destruct (os_Remove s name) as [s'|] eqn:E; [|reflexivity].
  apply os_Remove_inv in E. subst. repeat split. simpl. apply delete_subseteq.
Qed.




Lemma delete_Ok file s :
  delete_ file s
  = Ok tt (match os_Remove (add_stdout ("rm -f " +:+ FromSlash file +:+ nl) s)
                           (FromSlash file) with
           | Some s' => s'
           | None => add_stdout ("rm -f " +:+ FromSlash file +:+ nl) s
           end).
Proof. reflexivity. Qed.

















Lemma returned_Ok {A} (r : Result A) a :
  returned r = Some a -> r = Ok a (final_state r).
Proof. destruct r; simpl; congruence. Qed.

Lemma done_missing_output file deps s :
  os_Stat s (FromSlash file) = None -> files_only deps ->
  done file deps s = Ok false s.
Proof.
  intros Hs Hf. rewrite done_unfold, Hs.
  pose proof (files_only_loop None false deps s Hf) as H.
  destruct (done_loop None false deps s) as [b s1|e s1] eqn:E.
  - apply done_loop_false in E. by subst.
  - exfalso. clear H. revert E. induction Hf as [|d deps Hd Hdeps IH].
    + discriminate.
    + rewrite done_loop_cons. destruct d as [dep|n f|v]; [|destruct Hd|];
        simpl; unfold ret; exact IH.
Qed.

(** ** More on [delete], [deleteFilesWithSuffix] and [command] *)

(** X2. [delete] never fails, whatever [os.Remove] says: it only prints
    and may only remove; when there is nothing at the path the file tree
    is left as it is. *)
Theorem delete_never_fails file s :
  exists s',
    delete_ file s = Ok tt s' /\ tidy s s'
    /\ stdout s' = stdout s ++ ["rm -f " +:+ FromSlash file +:+ nl]
    /\ (os_Stat s (FromSlash file) = None -> fs s' = fs s).
Proof.
  eexists. split; [apply delete_Ok|].
  set (s1 := add_stdout _ s).
  split; [|split].
  - transitivity s1; [by repeat split | apply os_Remove_tidy].
  - destruct (os_Remove s1 (FromSlash file)) as [s2|] eqn:E; [|reflexivity].
    apply os_Remove_inv in E. by subst.
  - intros Hs. unfold os_Remove. unfold os_Stat in Hs.
    destruct (String.eqb (FromSlash file) ""); [reflexivity|].
    change (cwd s1) with (cwd s). change (fs s1) with (fs s).
    destruct (resolve (cwd s) (FromSlash file)) as [|x q]; [reflexivity|].
    destruct (lookup_node (fs s) (x :: q)); [discriminate|reflexivity].
Qed.



Lemma for_each_Print (g : string -> string) l s :
  exists s1,
    for_each (fun a => Print (g a)) l s = Ok tt s1
    /\ world s1 = world s /\ processed s1 = processed s.
Proof.
  revert s. induction l as [|x l IH]; intros s.
  - by exists s.
  - simpl. unfold bind at 1. simpl.
    destruct (IH (add_stdout (g x) s)) as (s1 & E & W & P). eauto.
Qed.

(** X3. When the input file of [command] cannot be read, the panic is that
    of the read and no child has been started; nothing but the output
    printed so far has changed. *)
Theorem command_unreadable_input_starts_no_child name i o arg s :
  String.eqb (FromSlash i) "" = false ->
  os_ReadFile s (FromSlash i) = None ->
  exists s',
    command ch name i o arg s = Panic (PathError "open" (FromSlash i)) s'
    /\ world s' = world s /\ processed s' = processed s.
Proof.
  intros Hi Hr. unfold command. cbv zeta. unfold bind at 1. simpl.
  set (s0 := add_stdout (FromSlash name) s).
  unfold bind at 1.
  destruct (for_each_Print (fun a => " " +:+ a) arg s0) as (s1 & -> & W & P).
  rewrite Hi. simpl. unfold bind, Print, modify, must. simpl.
  assert (Hr1 : os_ReadFile (add_stdout (" < " +:+ FromSlash i) s1)
                            (FromSlash i) = None).
  { unfold os_ReadFile in *. simpl.
    injection W as W1 W2 _ _. by rewrite W1, W2. }
  rewrite Hr1. eexists. split; [reflexivity|]. split; [|exact P].
  transitivity (world s1); [reflexivity | exact W].
Qed.

Lemma world_inv s s' :
  world s' = world s ->
  cwd s' = cwd s /\ fs s' = fs s /\ now s' = now s /\ spawned s' = spawned s.
Proof. unfold world. intros [= -> -> -> ->]. auto. Qed.

Lemma os_ReadFile_world s s' name :
  world s' = world s -> os_ReadFile s' name = os_ReadFile s name.
Proof.
  intros W. apply world_inv in W as (W1 & W2 & _).
  unfold os_ReadFile. by rewrite W1, W2.
Qed.

Lemma os_WriteFile_read s name data s' :
  os_WriteFile s name data = Some s' -> os_ReadFile s' name = Some data.
Proof.
  intros E. pose proof (os_WriteFile_inv _ _ _ _ E) as ->.
  unfold os_WriteFile in E. unfold os_ReadFile.
  destruct (String.eqb name ""); [discriminate|]. simpl.
  destruct (resolve (cwd s) name) as [|x q]; [discriminate|].
  unfold lookup_node. by rewrite lookup_insert_eq.
Qed.

(** X4. With an output file, a [command] that returns has started one
    child, in the working directory, with the given arguments and the
    contents of the input file as its input; the child did not fail, and
    the output file now holds what the child wrote to its standard
    output. *)
Theorem command_captures_output name i o arg s s' :
  String.eqb (FromSlash o) "" = false ->
  command ch name i o arg s = Ok tt s' ->
  let inv := mkInv (cwd s) (FromSlash name) arg
                   (if String.eqb (FromSlash i) "" then None
                    else os_ReadFile s (FromSlash i)) in
  let oc := run_child ch (List.length (spawned s)) (fs s) (now s) inv in
  spawned s' = spawned s ++ [(inv, None)]
  /\ o_err oc = None
  /\ os_ReadFile s' (FromSlash o) = Some (o_stdout oc)
  /\ cwd s' = cwd s /\ processed s' = processed s.
Proof.
  intros Ho E. cbv zeta. unfold command in E. cbv zeta in E.
  unfold bind at 1 in E. simpl in E.
  set (s0 := add_stdout (FromSlash name) s) in E.
  unfold bind at 1 in E.
  destruct (for_each_Print (fun a => " " +:+ a) arg s0) as (s1 & E1 & W1 & P1).
  rewrite E1 in E. clear E1.
  change (world s0) with (world s) in W1.
  change (processed s0) with (processed s) in P1.
  rewrite Ho in E. simpl in E.
  assert (Hin : exists s2,
             world s2 = world s /\ processed s2 = processed s
             /\ (let* o0 := run ch (FromSlash name) arg
                             (if String.eqb (FromSlash i) "" then None
                              else os_ReadFile s (FromSlash i)) in
                 match o_err o0 with
                 | Some e => panic e
                 | None =>
                     must_set
                       (fun s3 => os_WriteFile s3 (FromSlash o) (o_stdout o0))
                       (PathError "open" (FromSlash o))
                 end) s2 = Ok tt s').
  { destruct (String.eqb (FromSlash i) "") eqn:Hi; simpl in E.
    - unfold bind at 1, ret in E. unfold bind at 1, Print, modify in E.
      eexists. split; [|split; [|exact E]]; [exact W1|exact P1].
    - unfold bind at 1 in E. unfold bind at 1, Print, modify in E.
      simpl in E. set (s1' := add_stdout _ s1) in E.
      unfold bind at 1, must in E.
      rewrite (os_ReadFile_world s s1' (FromSlash i) W1) in E.
      destruct (os_ReadFile s (FromSlash i)) as [d|]; [|discriminate].
      unfold bind at 1, gets in E.
      destruct (stdin_pipe ch (length (spawned s1'))); [discriminate|].
      unfold ret at 1 in E. unfold bind at 1, Print, modify in E.
      eexists. split; [|split; [|exact E]]; [exact W1|exact P1]. }
  destruct Hin as (s2 & W2 & P2 & E2).
  apply world_inv in W2 as (Wc & Wf & Wn & Ws).
  unfold bind, run in E2. rewrite Wc, Wf, Wn, Ws in E2.
  set (inv := mkInv _ _ _ _) in *. set (oc := run_child _ _ _ _ _) in *.
  destruct (o_err oc) as [e|] eqn:Eerr; [discriminate|].
  unfold must_set in E2.
  destruct (os_WriteFile (after_child inv oc s2) (FromSlash o) (o_stdout oc))
    as [s3|] eqn:Ew; [|discriminate].
  injection E2 as <-.
  pose proof (os_WriteFile_read _ _ _ _ Ew) as Hr.
  apply os_WriteFile_inv in Ew. subst s3. simpl in *.
  rewrite Ws, Eerr, Wc. rewrite Wc in Hr.
  split; [reflexivity|]. split; [reflexivity|]. split; [exact Hr|].
  split; [reflexivity | exact P2].
Qed.

(** X5. A target whose output is missing does not report true: if its
    function returns at all it has run the action. *)
Theorem missing_output_is_never_up_to_date r s s' :
  In r (rows ch) ->
  os_Stat s (FromSlash (row_file r)) = None ->
  row_fn r s <> Ok true s'.
Proof.
  intros Hr Hs E. pose proof (row_runs r s Hr) as H. rewrite E in H.
  rewrite done_unfold, Hs in H. by apply done_loop_false in H.
Qed.

(** X6. A function of the program that reports true has started no child
    and has left the file tree, the clock and the working directory as
    they were: a build that finds everything up to date does nothing. *)
Theorem up_to_date_run_changes_nothing t s s' :
  In t (functions ch) -> t s = Ok true s' -> world s' = world s.
Proof.
  intros Ht E. destruct (functions_good t Ht) as [F Hg].
  by apply (gt_quiet _ _ Hg).
Qed.

(** X7. [bench] never reports up to date: when it returns it returns
    false, and its last act was to run the benchmarks, whatever [peg]
    found. *)
Theorem bench_always_runs_the_benchmarks s b s' :
  bench ch s = Ok b s' ->
  b = false
  /\ exists inv l,
       spawned s' = l ++ [(inv, None)]
       /\ i_name inv = "go"
       /\ i_args inv = ["test"; "-benchmem"; "-bench"; "."].
Proof.
  intros E. unfold bench in E.
  apply bind_Ok in E as (b0 & s1 & _ & E).
  apply bind_Ok in E as ([] & s2 & Ec & E). injection E as <- <-.
  split; [done|].
  destruct (spawns_command _ _ _ _ _ _ _ Ec) as (l & Hs & Hm & Hok).
  destruct l as [|[inv e] [|? ?]]; try discriminate.
  apply Forall_inv in Hok. simpl in Hok. subst e.
  injection Hm as Hn Ha. exists inv, (spawned s1). auto.
Qed.

(** ** [main] and [buildinfo] *)

(** X8. Without arguments [main] builds [peg]; only the first argument is
    looked at; and a name [main] does not know is not an error: nothing
    is done and nothing is printed. *)
Theorem main_unknown_target_does_nothing a rest s :
  ~ In a known_targets ->
  main ch (a :: rest) s = Ok tt s
  /\ main ch [] s = main ch ["peg"] s
  /\ main ch (a :: rest) s = main ch [a] s.
Proof.
  intros Hn. split; [|split; reflexivity].
  unfold main. cbv zeta.
  repeat match goal with
    | |- context [String.eqb a ?x] =>
        destruct (String.eqb_spec a x) as [->|_];
        [exfalso; apply Hn; unfold known_targets; simpl; tauto|]
    end.
  reflexivity.
Qed.


Lemma split_on_nonempty sep cur x : split_on sep cur x <> [].
Proof.
  revert cur. induction x as [|c r IH]; intros cur; simpl; [discriminate|].
  destruct (Ascii.eqb c sep); [discriminate | apply IH].
Qed.

Lemma split_on_last sep cur x :
  List.last (split_on sep cur (x +:+ String sep EmptyString)) "" = "".
Proof.
  revert cur. induction x as [|c r IH]; intros cur.
  - simpl. by rewrite Ascii.eqb_refl.
  - change (String c r +:+ String sep "")
      with (String c (r +:+ String sep "")).
    cbn [split_on]. destruct (Ascii.eqb c sep); [|apply IH].
    specialize (IH "").
    pose proof (split_on_nonempty sep "" (r +:+ String sep "")) as Hne.
    destruct (split_on sep "" (r +:+ String sep "")); [done | exact IH].
Qed.

(** X10. When no tag contains the commit and [git tag --merged] prints its
    tags one per line, the version [buildinfo] writes is empty: it is the
    text after the last newline of that output.  (If the file was created,
    its write did not fail and it is still a file, its content is the
    template with that version, not marked as tagged.) *)
Theorem buildinfo_version_is_text_after_last_newline s s' f s1 t data :
  (forall n m k d,
      let o := run_child ch n m k (mkInv d "git" ["tag"; "--contains"] None) in
      o_err o = None /\ (String.length (o_stdout o) <= 1)%nat) ->
  (forall n m k d,
      let o := run_child ch n m k
                 (mkInv d "git" ["tag"; "--merged"; "--sort=v:refname"] None) in
      o_err o = None /\ (1 < String.length (o_stdout o))%nat
      /\ exists x, o_stdout o = x +:+ nl) ->
  os_Create (set_log_prefix "buildinfo:" s) "buildinfo.go" = Some (f, s1) ->
  buildinfo ch s = Ok tt s' ->
  write_err ch (List.length (spawned s')) = None ->
  lookup_node (fs s') f = Some (File t data) ->
  exists inf, data = templ inf /\ Version inf = "" /\ IsTagged inf = false.
Proof.
  intros H1 H2 Ec E Hw Hf.
  unfold buildinfo, defer, Close, Execute, log_Println, log_SetPrefix, run in E.
  unfold_m. cbv zeta in E. rewrite Ec in E.
  match type of E with
  | context [run_child ch ?n ?m ?k (mkInv ?d "git" ["tag"; "--contains"] None)] =>
      destruct (H1 n m k d) as [A1 A2];
      set (o1 := run_child ch n m k (mkInv d "git" ["tag"; "--contains"] None))
        in *
  end.
  rewrite A1 in E.
  assert (B1 : (1 <? String.length (o_stdout o1))%nat = false)
    by (apply Nat.ltb_ge; exact A2).
  rewrite B1 in E.
  match type of E with
  | context [run_child ch ?n ?m ?k
               (mkInv ?d "git" ["tag"; "--merged"; "--sort=v:refname"] None)] =>
      destruct (H2 n m k d) as (A3 & A4 & x & A5);
      set (o2 := run_child ch n m k
                   (mkInv d "git" ["tag"; "--merged"; "--sort=v:refname"] None))
        in *
  end.
  rewrite A3 in E.
  assert (B2 : (1 <? String.length (o_stdout o2))%nat = true)
    by (apply Nat.ltb_lt; exact A4).
  rewrite B2 in E.
  assert (V : List.last (Split (o_stdout o2) (ascii_of_nat 10)) "" = "").
  { rewrite A5. apply split_on_last. }
  rewrite V in E. cbn [Version Buildtime Commit IsTagged] in E.
  repeat match type of E with
    | context [match o_err ?o with _ => _ end] => destruct (o_err o)
    end.
  all: cbn [Version Buildtime Commit IsTagged] in E.
  all: match type of E with
       | context [write_err ch ?n] =>
           assert (N : write_err ch n = None);
           [ destruct (write_err ch n) eqn:W; [|reflexivity];
             exfalso; injection E as <-;
             change (write_err ch n = None) in Hw; congruence
           | rewrite N in E ]
       end.
  all: match type of E with
       | context [mkBuildInfo "" ?b ?c false] =>
           exists (mkBuildInfo "" b c false)
       end.
  all: split; [|split; reflexivity].
  all: injection E as <-; simpl in Hf.
  all: unfold write_handle in Hf; simpl in Hf.
  all: match type of Hf with
       | context [match lookup_node ?m ?q with _ => _ end] =>
           destruct (lookup_node m q) as [[t0 d0|t0]|] eqn:L; simpl in Hf
       end.
  all: try (rewrite L in Hf; discriminate).
  all: destruct f as [|y q]; [discriminate|].
  all: unfold lookup_node in Hf; rewrite lookup_insert_eq in Hf.
  all: by injection Hf as _ <-.
Qed.

End Proofs.

(** * The claims on a concrete repository *)

Lemma C1_witness :
  true = true <->
  exists info,
    os_Stat built (FromSlash "peg") = Some info
    /\ UpToDate info
         [DFunc "main.peg_peg_go" (peg_peg_go quiet_children);
          DString "main.go"] built.
Proof.
  eapply (C1_done_true_iff_up_to_date "peg" _ built true).
  apply returned_Ok. vm_compute. reflexivity.
Defined.

Lemma C2_witness :
  match row_fn peg_row fresh with
  | Ok true s' => done (row_file peg_row) (row_deps peg_row) fresh = Ok true s'
  | Ok false s' =>
      exists s1 l,
        done (row_file peg_row) (row_deps peg_row) fresh = Ok false s1
        /\ row_action peg_row s1 = Ok tt s'
        /\ spawned s' = spawned s1 ++ l
        /\ List.map sig l = row_cmds peg_row /\ l <> [] /\ all_ok l
  | Panic _ _ => True
  end.
Proof.
  apply (C2_returns_true_iff_action_not_run quiet_children peg_row fresh).
  unfold peg_row. cbn [rows In]. do 7 right. left. reflexivity.
Defined.

Lemma C3_witness :
  false = false
  /\ exists inv l,
       spawned (final_state (test quiet_children built)) = l ++ [(inv, None)]
       /\ i_name inv = "go"
       /\ i_args inv = ["test"; "-short"; "-tags"; "grammars"; "./..."].
Proof.
  apply (C3_test_always_runs_its_action quiet_children built false).
  apply returned_Ok. vm_compute. reflexivity.
Defined.

(** Every grammar target reported true, nothing was rebuilt, and [test]
    ran [go test] all the same and returned false. *)
Lemma C3_counterexample :
  exists s',
    test quiet_children built = Ok false s'
    /\ List.map (fun n => processed s' !! n)
         [ "main.grammars_c"; "main.grammars_calculator";
           "main.grammars_calculator_ast"; "main.grammars_fexl";
           "main.grammars_java"; "main.grammars_long_test" ]
       = [Some true; Some true; Some true; Some true; Some true; Some true]
    /\ List.map sig (spawned s')
       = [("go", ["test"; "-short"; "-tags"; "grammars"; "./..."])].
Proof.
  exists (final_state (test quiet_children built)).
  split; [apply returned_Ok; vm_compute; reflexivity|].
  split; vm_compute; reflexivity.
Qed.



Lemma C5_witness :
  done "peg" ([] ++ DString "nothing.go" :: []) built
  = Panic (PathError "stat" (FromSlash "nothing.go")) built.
Proof.
  pose proof (C5_stat_failure_fatal_when_output_exists
                "peg" [] "nothing.go" [] built) as H.
  destruct (os_Stat built (FromSlash "peg")) as [info|] eqn:E.
  - apply (H true built); [reflexivity | vm_compute; reflexivity].
  - vm_compute in E. discriminate E.
Defined.

(** Before anything is built the output of [bootstrap] is missing: a
    dependency that does not exist is not statted, and [done] returns. *)
Lemma C5_counterexample :
  os_Stat fresh "bootstrap/nothing.go" = None
  /\ done "bootstrap/bootstrap" [DString "bootstrap/nothing.go"] fresh
     = Ok false fresh.
Proof.
  split; [vm_compute; reflexivity|].
  apply done_missing_output; [vm_compute; reflexivity|].
  repeat constructor.
Qed.

Lemma C6_witness :
  (ran "main.peg" (final_state (test quiet_children fresh)) <= 1)%nat.
Proof.
  refine (proj2 (proj2 (C6_target_run_at_most_once quiet_children))
            (test quiet_children) fresh "main.peg" _ _ _).
  - unfold functions. cbn [rows List.map row_fn app In].
    do 14 right. left. reflexivity.
  - reflexivity.
  - unfold target_names. cbn [In]. do 7 right. left. reflexivity.
Defined.




(** * The further properties on the concrete repository *)


Lemma command_unreadable_input_witness :
  exists s',
    command quiet_children "./peg0" "nothing.peg" "peg1.peg.go" [] in_stage_dir
    = Panic (PathError "open" (FromSlash "nothing.peg")) s'
    /\ world s' = world in_stage_dir
    /\ processed s' = processed in_stage_dir.
Proof.
  refine (command_unreadable_input_starts_no_child
            quiet_children "./peg0" "nothing.peg" "peg1.peg.go" []
            in_stage_dir _ _).
  - reflexivity.
  - vm_compute. reflexivity.
Defined.

Lemma command_captures_output_witness :
  let s' := final_state
              (command quiet_children "./peg0" "bootstrap.peg" "peg1.peg.go"
                       [] in_stage_dir) in
  let inv := mkInv (cwd in_stage_dir) (FromSlash "./peg0") []
                   (if String.eqb (FromSlash "bootstrap.peg") "" then None
                    else os_ReadFile in_stage_dir (FromSlash "bootstrap.peg")) in
  let oc := run_child quiet_children (List.length (spawned in_stage_dir))
                      (fs in_stage_dir) (now in_stage_dir) inv in
  spawned s' = spawned in_stage_dir ++ [(inv, None)]
  /\ o_err oc = None
  /\ os_ReadFile s' (FromSlash "peg1.peg.go") = Some (o_stdout oc)
  /\ cwd s' = cwd in_stage_dir /\ processed s' = processed in_stage_dir.
Proof.
  refine (command_captures_output
            quiet_children "./peg0" "bootstrap.peg" "peg1.peg.go" []
            in_stage_dir _ _ _).
  - reflexivity.
  - apply returned_Ok. vm_compute. reflexivity.
Defined.

Lemma missing_output_witness :
  row_fn (row_at 0) fresh <> Ok true fresh.
Proof.
  refine (missing_output_is_never_up_to_date
            quiet_children (row_at 0) fresh fresh _ _).
  - cbn [rows In]. left. reflexivity.
  - vm_compute. reflexivity.
Defined.

Lemma up_to_date_run_witness :
  world (final_state (peg quiet_children built)) = world built.
Proof.
  refine (up_to_date_run_changes_nothing
            quiet_children (peg quiet_children) built _ _ _).
  - unfold functions. cbn [rows List.map row_fn app In].
    do 7 right. left. reflexivity.
  - apply returned_Ok. vm_compute. reflexivity.
Defined.

Lemma bench_witness :
  false = false
  /\ exists inv l,
       spawned (final_state (bench quiet_children built)) = l ++ [(inv, None)]
       /\ i_name inv = "go"
       /\ i_args inv = ["test"; "-benchmem"; "-bench"; "."].
Proof.
  refine (bench_always_runs_the_benchmarks quiet_children built false _ _).
  apply returned_Ok. vm_compute. reflexivity.
Defined.

Lemma main_unknown_target_witness :
  main quiet_children ["frobnicate"] fresh = Ok tt fresh
  /\ main quiet_children [] fresh = main quiet_children ["peg"] fresh
  /\ main quiet_children ["frobnicate"] fresh
     = main quiet_children ["frobnicate"] fresh.
Proof.
  refine (main_unknown_target_does_nothing quiet_children "frobnicate" []
            fresh _).
  unfold known_targets. simpl. intuition discriminate.
Defined.

Lemma buildinfo_version_witness :
  match os_Create (set_log_prefix "buildinfo:" built) "buildinfo.go" with
  | Some (f, _) =>
      forall t data,
        lookup_node (fs (final_state (buildinfo untagged_children built))) f
        = Some (File t data) ->
        exists inf,
          data = templ inf /\ Version inf = "" /\ IsTagged inf = false
  | None => True
  end.
Proof.
  destruct (os_Create (set_log_prefix "buildinfo:" built) "buildinfo.go")
    as [[f s1]|] eqn:Ec; [|exact I].
  intros t data Hf.
  refine (buildinfo_version_is_text_after_last_newline
            untagged_children built
            (final_state (buildinfo untagged_children built))
            f s1 t data _ _ Ec _ _ Hf).
  - intros n m k d. simpl. split; [reflexivity | lia].
  - intros n m k d. simpl. split; [reflexivity|]. split; [lia|].
    exists ("v1.0.0" +:+ nl +:+ "v1.1.0"). reflexivity.
  - apply returned_Ok. vm_compute. reflexivity.
  - reflexivity.
Defined.

(** On the built repository with two merged tags and none on the commit,
    the file written has an empty version. *)
Example buildinfo_untagged_example :
  os_ReadFile (final_state (buildinfo untagged_children built)) "buildinfo.go"
  = Some (templ (mkBuildInfo "" "2020-01-01T00:00:00" "0123abcd" false)).
Proof. vm_compute. reflexivity. Qed.
